(** * Rapid Bot: the dialogue router of [chatbot.py]

    A shallow embedding of the functional core of [src/chatbot.py]
    ([get_weather], [get_tasks], [update_preferences],
    [ask_preference_questions], [handle_quick_action],
    [generate_response]) and of the Streamlit session state it works on,
    followed by the properties of the router.

    Conventions of the embedding.
    - Python [str] is [string]; a character is read as the code point of
      the same number (U+0000 to U+00FF).  The emoji of the weather
      report, which lie outside that range, stand in the literals as the
      bytes of their UTF-8 encoding; they only ever occur in output text.
    - [None] or a [str] is [option string].
    - A parsed JSON document is a [json] value.
    - The session state is threaded explicitly; a raised exception leaves
      the mutations made before it in place, as in Python.
    - The three network calls are answered by an environment [env] and are
      recorded, with their arguments, in a log of calls. *)

From Stdlib Require Import ZArith NArith Ascii.
From stdpp Require Import base option list gmap strings pretty.

Local Open Scope Z_scope.
#[local] Set Warnings "-register-all".

(** ** Python's [str] methods used by the router *)

Module PyStr.

Definition nl : string := String "010"%char "".
Definition dquote : ascii := "034"%char.

Definition code (c : ascii) : N := N_of_ascii c.

Definition between (lo hi n : N) : bool := ((lo <=? n) && (n <=? hi))%N.

(** [str.isspace] on one character. *)
Definition isspace (c : ascii) : bool :=
  let n := code c in
  between 9 13 n || between 28 32 n || (n =? 133)%N || (n =? 160)%N.

(** [str.lower] on one character: A-Z, and the capital letters of
    U+00C0..U+00DE (U+00D7, the multiplication sign, is no letter). *)
Definition lower_char (c : ascii) : ascii :=
  let n := code c in
  if between 65 90 n || (between 192 222 n && negb (n =? 215)%N)
  then ascii_of_N (n + 32) else c.

Fixpoint lower (s : string) : string :=
  match s with
  | EmptyString => EmptyString
  | String c s' => String (lower_char c) (lower s')
  end.

Fixpoint lstrip (s : string) : string :=
  match s with
  | EmptyString => EmptyString
  | String c s' => if isspace c then lstrip s' else s
  end.

Fixpoint rstrip (s : string) : string :=
  match s with
  | EmptyString => EmptyString
  | String c s' =>
      match rstrip s' with
      | EmptyString => if isspace c then EmptyString else String c EmptyString
      | r => String c r
      end
  end.

(** [s.strip()] *)
Definition strip (s : string) : string := rstrip (lstrip s).

(** [sub in s] *)
Fixpoint contains (sub s : string) : bool :=
  String.prefix sub s ||
  match s with
  | EmptyString => false
  | String _ s' => contains sub s'
  end.

(** The scan behind [s.split(sep)] for a non-empty [sep]: occurrences of
    [sep] are taken from the left and do not overlap.  [skip] counts
    the characters of a matched separator still to be passed over and
    [cur] is the piece being read. *)
Fixpoint split_from (sep : string) (skip : nat) (cur : string) (s : string)
  : list string :=
  match s with
  | EmptyString => [cur]
  | String c s' =>
      match skip with
      | S k => split_from sep k cur s'
      | O =>
          if String.prefix sep s
          then cur :: split_from sep (String.length sep - 1) EmptyString s'
          else split_from sep 0 (cur +:+ String c EmptyString) s'
      end
  end.

Definition split (sep s : string) : list string :=
  split_from sep 0 EmptyString s.

(** [sep.join(l)] *)
Definition join (sep : string) (l : list string) : string :=
  String.concat sep l.

(** [s.replace(old, new)]: for a non-empty [old] the pieces between
    the occurrences of [old], glued by [new]; for an empty [old],
    [new] before every character and at the end. *)
Definition replace (old new s : string) : string :=
  match old with
  | EmptyString =>
      new +:+ String.concat EmptyString
                (map (fun c => String c new) (String.list_ascii_of_string s))
  | _ => join new (split old s)
  end.

(** Truth value of a [str]. *)
Definition truthy (s : string) : bool :=
  match s with EmptyString => false | _ => true end.

End PyStr.

(** ** Exceptions and results *)

(** The exception classes the code can meet, as far as it tells them
    apart: [except ValueError] catches [ValueError] (to which the JSON
    decoding errors belong), [except Exception] catches every class here.
    [OtherError] is any other subclass of [Exception] (a connection
    error, a timeout, an error of the model's client). *)
Inductive exn_class : Type :=
| ValueError | KeyError | TypeError | AttributeError | IndexError
| UnboundLocalError | OtherError.

(** An exception: its class and the text [str(e)] gives for it. *)
Record exn : Type := Exn { exn_cls : exn_class; exn_str : string }.

Definition is_ValueError (e : exn) : bool :=
  match exn_cls e with ValueError => true | _ => false end.

Inductive res (A : Type) : Type :=
| Val (a : A)
| Exc (e : exn).
Arguments Val {A} a.
Arguments Exc {A} e.

(** ** JSON values, as [response.json()] returns them *)

(** A [float] is given by the text [repr] prints for it; a [dict] is the
    list of its items in insertion order (its keys are distinct, and a
    lookup takes the first item of the key). *)
Inductive json : Type :=
| JNull
| JBool (b : bool)
| JInt (z : Z)
| JFloat (printed : string)
| JStr (s : string)
| JList (l : list json)
| JDict (d : list (string * json)).

Module PyVal.
Import PyStr.

Definition hex_digit (n : N) : ascii :=
  ascii_of_N (if (n <? 10)%N then 48 + n else 87 + n).

(** [str.isprintable] on one character. *)
Definition printable (c : ascii) : bool :=
  let n := code c in
  negb ((n <? 32)%N || between 127 160 n || (n =? 173)%N).

Definition repr_char (quote c : ascii) : string :=
  let n := code c in
  if (n =? 92)%N then "\\"
  else if (n =? code quote)%N then String "\" (String quote EmptyString)
  else if (n =? 10)%N then "\n"
  else if (n =? 13)%N then "\r"
  else if (n =? 9)%N then "\t"
  else if printable c then String c EmptyString
  else String "\" (String "x" (String (hex_digit (n / 16))
                                 (String (hex_digit (n mod 16)) EmptyString))).

Definition has_char (c : ascii) (s : string) : bool :=
  existsb (Ascii.eqb c) (String.list_ascii_of_string s).

(** [repr(s)] of a [str]: single quotes, unless [s] holds a single
    quote and no double quote. *)
Definition repr_str (s : string) : string :=
  let quote := if has_char "'" s && negb (has_char dquote s)
               then dquote else "'"%char in
  String quote
    (String.concat EmptyString
       (map (repr_char quote) (String.list_ascii_of_string s))
     +:+ String quote EmptyString).

Fixpoint repr (v : json) : string :=
  match v with
  | JNull => "None"
  | JBool true => "True"
  | JBool false => "False"
  | JInt z => pretty z
  | JFloat printed => printed
  | JStr s => repr_str s
  | JList l => "[" +:+ join ", " (map repr l) +:+ "]"
  | JDict d =>
      "{" +:+ join ", " (map (fun kv => let '(k, x) := kv in
                                       repr_str k +:+ ": " +:+ repr x) d)
          +:+ "}"
  end.

(** [str(v)], which is what an f-string puts for [{v}]. *)
Definition py_str (v : json) : string :=
  match v with
  | JStr s => s
  | _ => repr v
  end.

(** [str(v)] of a value that is [None] or a [str]. *)
Definition str_opt (v : option string) : string :=
  match v with
  | None => "None"
  | Some s => s
  end.

Definition type_name (v : json) : string :=
  match v with
  | JNull => "NoneType"
  | JBool _ => "bool"
  | JInt _ => "int"
  | JFloat _ => "float"
  | JStr _ => "str"
  | JList _ => "list"
  | JDict _ => "dict"
  end.

Fixpoint dict_lookup (k : string) (d : list (string * json)) : option json :=
  match d with
  | [] => None
  | (k', x) :: d' => if String.eqb k' k then Some x else dict_lookup k d'
  end.

Definition is_str (k : string) (v : json) : bool :=
  match v with
  | JStr s => String.eqb s k
  | _ => false
  end.

(** [k in v] for a [str] key [k]. *)
Definition py_in (k : string) (v : json) : res bool :=
  match v with
  | JDict d => Val (bool_decide (is_Some (dict_lookup k d)))
  | JList l => Val (existsb (is_str k) l)
  | JStr s => Val (contains k s)
  | _ => Exc (Exn TypeError
                ("argument of type '" +:+ type_name v +:+ "' is not iterable"))
  end.

(** [v[k]] for a [str] key [k]. *)
Definition getitem (v : json) (k : string) : res json :=
  match v with
  | JDict d =>
      match dict_lookup k d with
      | Some x => Val x
      | None => Exc (Exn KeyError (repr_str k))
      end
  | JList _ =>
      Exc (Exn TypeError "list indices must be integers or slices, not str")
  | JStr _ =>
      Exc (Exn TypeError "string indices must be integers, not 'str'")
  | _ => Exc (Exn TypeError
                ("'" +:+ type_name v +:+ "' object is not subscriptable"))
  end.

(** [v.get(k, dflt)] *)
Definition get_default (v : json) (k : string) (dflt : json) : res json :=
  match v with
  | JDict d => Val (default dflt (dict_lookup k d))
  | _ => Exc (Exn AttributeError
                ("'" +:+ type_name v +:+ "' object has no attribute 'get'"))
  end.

(** [isinstance(v, dict)], [isinstance(v, list)] *)
Definition is_dict (v : json) : bool :=
  match v with JDict _ => true | _ => false end.

(** [l[i]] on a list of strings, for [i >= 0]. *)
Definition list_getitem (l : list string) (i : nat) : res string :=
  match l !! i with
  | Some x => Val x
  | None => Exc (Exn IndexError "list index out of range")
  end.

(** [s.split(sep)] *)
Definition str_split (s sep : string) : res (list string) :=
  match sep with
  | EmptyString => Exc (Exn ValueError "empty separator")
  | _ => Val (split sep s)
  end.

End PyVal.

(** ** The session state and the outside world *)

Inductive role : Type := User | Assistant.

Record message : Type := { msg_role : role; msg_content : string }.

(** [st.session_state]: the chat history, the preference record (a
    [dict] with the keys "name" and "location") and the key
    [awaiting_preference], which is absent ([None] here) when no question
    is pending. *)
Record session_state : Type := {
  messages : list message;
  user_prefs : gmap string (option string);
  awaiting_preference : option string
}.

(** The state of a new session (lines 18 to 26 of the script). *)
Definition fresh_session : session_state :=
  {| messages := [];
     user_prefs := <["name" := None]> (<["location" := None]> ∅);
     awaiting_preference := Some "name" |}.

(** A network call, with what is sent that the router chooses. *)
Inductive call : Type :=
| WeatherGet (q : option string)
| TodoistGet
| GeminiGenerate (prompt : string).

(** The response of the task provider: its status code, and what
    [response.json()] gives when it is asked. *)
Record http_response : Type := {
  status_code : Z;
  json_body : res json
}.

(** What the providers answer.  [weather_api q] is the outcome of
    [requests.get(base_url, params)] followed by [response.json()];
    [gemini_api p] that of [model.generate_content(p)] followed by
    [response.text]. *)
Record env : Type := {
  weather_api : option string → res json;
  todoist_api : res http_response;
  gemini_api : string → res string
}.

Record world : Type := {
  sess : session_state;
  calls : list call
}.

(** ** Computations: state, and exceptions that keep the state *)

Definition M (A : Type) : Type := world → res A * world.

Definition ret {A} (a : A) : M A := fun w => (Val a, w).

Definition bind {A B} (m : M A) (k : A → M B) : M B :=
  fun w =>
    match m w with
    | (Val a, w') => k a w'
    | (Exc e, w') => (Exc e, w')
    end.

Definition raise {A} (e : exn) : M A := fun w => (Exc e, w).

Definition lift {A} (r : res A) : M A := fun w => (r, w).

(** [try: m except <class> as e: handler e], for the classes [catches]
    accepts. *)
Definition try_except {A} (catches : exn → bool) (m : M A)
    (handler : exn → M A) : M A :=
  fun w =>
    match m w with
    | (Exc e, w') => if catches e then handler e w' else (Exc e, w')
    | r => r
    end.

(** [except Exception]: every class of [exn_class]. *)
Definition any_Exception (e : exn) : bool := true.

Definition get_session : M session_state := fun w => (Val (sess w), w).

Definition modify_session (f : session_state → session_state) : M unit :=
  fun w => (Val tt, {| sess := f (sess w); calls := calls w |}).

Definition perform (c : call) : M unit :=
  fun w => (Val tt, {| sess := sess w; calls := calls w ++ [c] |}).

Declare Scope py_scope.
Delimit Scope py_scope with py.
Bind Scope py_scope with M.
Notation "x <- m ;; k" := (bind m (fun x => k))
  (at level 20, m at level 99, k at level 200, only parsing) : py_scope.
Notation "m ;; k" := (bind m (fun _ => k))
  (at level 100, k at level 200, only parsing, right associativity) : py_scope.
Local Open Scope py_scope.

(** ** The functions of [chatbot.py] *)

Import PyStr PyVal.

(** [st.session_state.user_prefs[k]] *)
Definition prefs_getitem (k : string) : M (option string) :=
  s <- get_session ;;
  match user_prefs s !! k with
  | Some v => ret v
  | None => raise (Exn KeyError (repr_str k))
  end.

(** [st.session_state.user_prefs.get(k, dflt)] *)
Definition prefs_get (k : string) (dflt : option string) : M (option string) :=
  s <- get_session ;;
  ret (default dflt (user_prefs s !! k)).

(** [st.session_state.awaiting_preference = k] *)
Definition set_awaiting (k : string) : M unit :=
  modify_session (fun s =>
    {| messages := messages s;
       user_prefs := user_prefs s;
       awaiting_preference := Some k |}).

Definition request_weather (E : env) (location : option string) : M json :=
  perform (WeatherGet location) ;; lift (weather_api E location).

Definition request_tasks (E : env) : M http_response :=
  perform TodoistGet ;; lift (todoist_api E).

Definition generate_content (E : env) (prompt : string) : M string :=
  perform (GeminiGenerate prompt) ;; lift (gemini_api E prompt).

Definition degree : string := String "176"%char EmptyString.

(** Lines 39 to 64. *)
Definition get_weather (E : env) (location : option string) : M string :=
  try_except any_Exception
    (data <- request_weather E location ;;
     has_error <- lift (py_in "error" data) ;;
     if has_error : bool then
       error <- lift (getitem data "error") ;;
       detail <- lift (getitem error "message") ;;
       ret ("Could not get weather: " +:+ py_str detail)
     else
       current <- lift (getitem data "current") ;;
       condition <- lift (getitem current "condition") ;;
       text <- lift (getitem condition "text") ;;
       temp_c <- lift (getitem current "temp_c") ;;
       temp_f <- lift (getitem current "temp_f") ;;
       humidity <- lift (getitem current "humidity") ;;
       wind_kph <- lift (getitem current "wind_kph") ;;
       wind_mph <- lift (getitem current "wind_mph") ;;
       uv <- lift (get_default current "uv" (JStr "N/A")) ;;
       ret ("🌤️ Weather in " +:+ str_opt location +:+ ":" +:+ nl +:+ nl +:+
            "☁️ Condition: " +:+ py_str text +:+ nl +:+
            nl +:+ "🌡️ Temperature: " +:+ py_str temp_c +:+ degree +:+ "C ("
               +:+ py_str temp_f +:+ degree +:+ "F)" +:+ nl +:+
            nl +:+ "💧 Humidity: " +:+ py_str humidity +:+ "%" +:+ nl +:+
            nl +:+ "🌬️ Wind: " +:+ py_str wind_kph +:+ " km/h ("
               +:+ py_str wind_mph +:+ " mph)" +:+ nl +:+
            nl +:+ "🌞 UV Index: " +:+ py_str uv))
    (fun e => ret ("Error getting weather: " +:+ exn_str e)).

(** The loop of lines 93 to 97 over [tasks[:5]]. *)
Fixpoint collect_tasks (tasks : list json) (task_list : list string)
  : M (list string) :=
  match tasks with
  | [] => ret task_list
  | task :: rest =>
      has_content <- (if is_dict task then lift (py_in "content" task)
                      else ret false) ;;
      if has_content : bool then
        content <- lift (getitem task "content") ;;
        collect_tasks rest (task_list ++ ["- " +:+ py_str content])
      else collect_tasks rest task_list
  end.

(** Lines 66 to 105.  The inner [try] leaves the function in its
    [except ValueError] clause; [None] stands for that exit. *)
Definition get_tasks (E : env) : M string :=
  try_except any_Exception
    (response <- request_tasks E ;;
     if negb (status_code response =? 200) then
       ret ("Todoist API error: Status " +:+ pretty (status_code response))
     else
       parsed <- try_except is_ValueError
                   (tasks <- lift (json_body response) ;; ret (Some tasks))
                   (fun _ => ret None) ;;
       match parsed with
       | None => ret "Invalid response format from Todoist"
       | Some (JList tasks) =>
           task_list <- collect_tasks (take 5 tasks) [] ;;
           match task_list with
           | [] => ret "No valid tasks found in your Todoist!"
           | _ => ret ("Here are your upcoming tasks:" +:+ nl +:+
                       join nl task_list)
           end
       | Some _ => ret "Unexpected response format from Todoist"
       end)
    (fun e => ret ("Error getting tasks: " +:+ exn_str e)).

(** Lines 108 to 113: [dict.update], then the key [awaiting_preference]
    is deleted when it is there. *)
Definition update_preferences (updates : gmap string (option string))
  : M string :=
  modify_session (fun s =>
    {| messages := messages s;
       user_prefs := updates ∪ user_prefs s;
       awaiting_preference := None |}) ;;
  ret "Preferences updated successfully!".

(** Lines 117 to 126; the [return] of line 125 is never reached. *)
Definition ask_preference_questions : M (option string) :=
  name <- prefs_getitem "name" ;;
  match name with
  | None =>
      set_awaiting "name" ;;
      ret (Some "Welcome! To personalize your experience, may I know your name?")
  | Some _ =>
      location <- prefs_getitem "location" ;;
      match location with
      | None =>
          set_awaiting "location" ;;
          name' <- prefs_getitem "name" ;;
          ret (Some ("Thanks " +:+ str_opt name' +:+
                     "! Where are you located? (This helps with weather reports)"))
      | Some _ => ret None
      end
  end.

(** Lines 130 to 136. *)
Definition handle_quick_action (E : env) (action : string) : M string :=
  if String.eqb action "weather" then
    location <- prefs_get "location" (Some "Colombo") ;;
    get_weather E location
  else if String.eqb action "tasks" then get_tasks E
  else ret "Unknown action".

(** Truth value of a value that is [None] or a [str]. *)
Definition truthy_opt (v : option string) : bool :=
  match v with
  | None => false
  | Some s => truthy s
  end.

(** Reading the local variable [response] of [generate_response], which
    is bound only when [pref_type] is "name" or "location". *)
Definition read_local (name : string) (v : option string) : M string :=
  match v with
  | Some x => ret x
  | None =>
      raise (Exn UnboundLocalError
               ("cannot access local variable '" +:+ name +:+
                "' where it is not associated with a value"))
  end.

Definition help_text : string :=
  "I can help with:" +:+ nl +:+
  "- Weather information (try 'weather [location]')" +:+ nl +:+
  "- Todoist tasks (try 'show my tasks')" +:+ nl +:+
  "- Set preferences (try 'my name is...', 'set location to...')" +:+ nl +:+
  "- Or ask me anything else!".

(** Lines 141 to 194.  [user_prefs] of line 156 is another name of the
    dictionary held by the session, so reading it is reading the session. *)
Definition generate_response (E : env) (prompt : string) : M string :=
  s <- get_session ;;
  match awaiting_preference s with
  | Some pref_type =>
      response <-
        (if String.eqb pref_type "name" then
           r <- update_preferences {["name" := Some prompt]} ;; ret (Some r)
         else if String.eqb pref_type "location" then
           r <- update_preferences {["location" := Some prompt]} ;; ret (Some r)
         else ret None) ;;
      next_question <- ask_preference_questions ;;
      if truthy_opt next_question then
        r <- read_local "response" response ;;
        ret (r +:+ nl +:+ nl +:+ str_opt next_question)
      else read_local "response" response
  | None =>
      if contains "my name is" (lower prompt) then
        parts <- lift (str_split (lower prompt) "my name is") ;;
        name <- lift (list_getitem parts 1) ;;
        update_preferences {["name" := Some (strip name)]}
      else if contains "set location to" (lower prompt) then
        parts <- lift (str_split (lower prompt) "set location to") ;;
        location <- lift (list_getitem parts 1) ;;
        update_preferences {["location" := Some (strip location)]}
      else
        preference_question <- ask_preference_questions ;;
        if truthy_opt preference_question then
          ret (str_opt preference_question)
        else if contains "weather" (lower prompt) then
          let location := strip (replace "weather" "" (lower prompt)) in
          location <- (if truthy location then ret (Some location)
                       else prefs_getitem "location") ;;
          get_weather E location
        else if contains "tasks" (lower prompt) || contains "todo" (lower prompt)
        then get_tasks E
        else if contains "who am i" (lower prompt) then
          name <- prefs_getitem "name" ;;
          location <- prefs_getitem "location" ;;
          ret ("You are " +:+ str_opt name +:+ ", located in " +:+
               str_opt location +:+ ". ")
        else if contains "help" (lower prompt) then ret help_text
        else
          try_except any_Exception
            (generate_content E prompt)
            (fun e => ret ("Sorry, I encountered an error: " +:+ exn_str e))
  end.

(** ** The host script around the router *)

Definition fresh_world : world := {| sess := fresh_session; calls := [] |}.

Definition with_messages (ms : list message) (w : world) : world :=
  {| sess := {| messages := ms;
                user_prefs := user_prefs (sess w);
                awaiting_preference := awaiting_preference (sess w) |};
     calls := calls w |}.

(** What one run of the script can do to the session: answer an
    utterance (line 209), run a quick action (lines 231 and 236), ask
    the opening question (line 218), and append to or clear the chat
    history.  The state an exception leaves behind counts as well. *)
Inductive host_step (w w' : world) : Prop :=
| step_respond (E : env) (prompt : string) (r : res string) :
    generate_response E prompt w = (r, w') → host_step w w'
| step_quick_action (E : env) (action : string) (r : res string) :
    handle_quick_action E action w = (r, w') → host_step w w'
| step_ask (r : res (option string)) :
    ask_preference_questions w = (r, w') → host_step w w'
| step_messages (ms : list message) :
    w' = with_messages ms w → host_step w w'.

Definition reachable (w : world) : Prop := rtc host_step fresh_world w.

(** ** Vocabulary of the specification *)

Abbreviation prefs_dict := (gmap string (option string)).

(** A preference field is unset when its key holds [None]. *)
Definition unset (prefs : prefs_dict) (k : string) : Prop :=
  prefs !! k = Some None.

Definition is_set (prefs : prefs_dict) (k : string) : Prop :=
  ∃ v, prefs !! k = Some (Some v).

(** The data model of a conversation state: the preference record has
    both fields, and the cursor, when present, names one of them. *)
Definition conversation_state (s : session_state) : Prop :=
  is_Some (user_prefs s !! "name") ∧
  is_Some (user_prefs s !! "location") ∧
  (awaiting_preference s = None ∨
   awaiting_preference s = Some "name" ∨
   awaiting_preference s = Some "location").

(** The next unset field, in the order name, location. *)
Definition next_unset (prefs : prefs_dict) : option string :=
  match prefs !! "name" with
  | Some None => Some "name"
  | _ => match prefs !! "location" with
         | Some None => Some "location"
         | _ => None
         end
  end.

Definition name_question : string :=
  "Welcome! To personalize your experience, may I know your name?".

Definition location_question (prefs : prefs_dict) : string :=
  "Thanks " +:+ str_opt (default None (prefs !! "name")) +:+
  "! Where are you located? (This helps with weather reports)".

(** The question that belongs to a cursor value. *)
Definition question_of (prefs : prefs_dict) (cursor : option string)
  : option string :=
  match cursor with
  | None => None
  | Some k => if String.eqb k "name" then Some name_question
              else Some (location_question prefs)
  end.

Definition acknowledgment : string := "Preferences updated successfully!".

Definition with_prefs (prefs : prefs_dict) (cursor : option string)
    (w : world) : world :=
  {| sess := {| messages := messages (sess w);
                user_prefs := prefs;
                awaiting_preference := cursor |};
     calls := calls w |}.

(** The cursor invariant of the data model. *)
Definition cursor_consistent (s : session_state) : Prop :=
  (awaiting_preference s = Some "name" ∧ unset (user_prefs s) "name") ∨
  (awaiting_preference s = Some "location" ∧
   is_set (user_prefs s) "name" ∧ unset (user_prefs s) "location") ∨
  (awaiting_preference s = None ∧
   is_set (user_prefs s) "name" ∧ is_set (user_prefs s) "location").

(** The dispatch order of the specification: an ordered list of
    branches, each with its trigger; the first branch whose trigger
    holds is the one that runs.  The two phrases of the manual
    assertion are two entries, "my name is" first. *)
Inductive branch : Type :=
| PendingPreference | ManualName | ManualLocation | IncompleteGuard
| Weather | Tasks | WhoAmI | Help | Fallback.

Definition dispatch_order : list branch :=
  [PendingPreference; ManualName; ManualLocation; IncompleteGuard;
   Weather; Tasks; WhoAmI; Help; Fallback].

Definition triggers (s : session_state) (utterance : string) (b : branch)
  : bool :=
  match b with
  | PendingPreference => bool_decide (is_Some (awaiting_preference s))
  | ManualName => contains "my name is" (lower utterance)
  | ManualLocation => contains "set location to" (lower utterance)
  | IncompleteGuard => bool_decide (is_Some (next_unset (user_prefs s)))
  | Weather => contains "weather" (lower utterance)
  | Tasks => contains "tasks" (lower utterance)
             || contains "todo" (lower utterance)
  | WhoAmI => contains "who am i" (lower utterance)
  | Help => contains "help" (lower utterance)
  | Fallback => true
  end.

Definition first_match (s : session_state) (utterance : string)
  : option branch :=
  find (triggers s utterance) dispatch_order.

(** The override location of a weather request. *)
Definition weather_override (utterance : string) : string :=
  strip (replace "weather" "" (lower utterance)).

(** What each branch does, taken from its block of [generate_response]. *)
Definition run_branch (b : branch) (E : env) (prompt : string) : M string :=
  match b with
  | PendingPreference =>
      s <- get_session ;;
      response <-
        (if bool_decide (awaiting_preference s = Some "name") then
           update_preferences {["name" := Some prompt]}
         else update_preferences {["location" := Some prompt]}) ;;
      next_question <- ask_preference_questions ;;
      match next_question with
      | Some q => ret (response +:+ nl +:+ nl +:+ q)
      | None => ret response
      end
  | ManualName =>
      parts <- lift (str_split (lower prompt) "my name is") ;;
      name <- lift (list_getitem parts 1) ;;
      update_preferences {["name" := Some (strip name)]}
  | ManualLocation =>
      parts <- lift (str_split (lower prompt) "set location to") ;;
      location <- lift (list_getitem parts 1) ;;
      update_preferences {["location" := Some (strip location)]}
  | IncompleteGuard =>
      q <- ask_preference_questions ;; ret (str_opt q)
  | Weather =>
      location <- (if truthy (weather_override prompt)
                   then ret (Some (weather_override prompt))
                   else prefs_getitem "location") ;;
      get_weather E location
  | Tasks => get_tasks E
  | WhoAmI =>
      name <- prefs_getitem "name" ;;
      location <- prefs_getitem "location" ;;
      ret ("You are " +:+ str_opt name +:+ ", located in " +:+
           str_opt location +:+ ". ")
  | Help => ret help_text
  | Fallback =>
      try_except any_Exception
        (generate_content E prompt)
        (fun e => ret ("Sorry, I encountered an error: " +:+ exn_str e))
  end.

(** Python's [s.find(sub)]: where [sub] first occurs in [s]. *)
Fixpoint find_str (sub s : string) : option nat :=
  if String.prefix sub s then Some 0%nat
  else match s with
       | EmptyString => None
       | String _ s' => S <$> find_str sub s'
       end.

Fixpoint drop_str (n : nat) (s : string) : string :=
  match n, s with
  | S k, String _ s' => drop_str k s'
  | _, _ => s
  end.

Fixpoint take_str (n : nat) (s : string) : string :=
  match n, s with
  | S k, String c s' => String c (take_str k s')
  | _, _ => EmptyString
  end.

(** The text that follows the first occurrence of [phrase] in [s], up to
    the next occurrence of [phrase] if there is one. *)
Definition text_after (phrase s : string) : option string :=
  i ← find_str phrase s;
  let rest := drop_str (i + String.length phrase) s in
  Some (match find_str phrase rest with
        | Some j => take_str j rest
        | None => rest
        end).

(** The tasks that are kept, and their bullets. *)
Definition is_task_record (task : json) : bool :=
  match task with
  | JDict d => bool_decide (is_Some (dict_lookup "content" d))
  | _ => false
  end.

Definition bullet (task : json) : string :=
  match task with
  | JDict d => "- " +:+ py_str (default JNull (dict_lookup "content" d))
  | _ => "- "
  end.

Definition kept_tasks (tasks : list json) : list json :=
  filter (fun task => is_task_record task = true) (take 5 tasks).

Definition task_summary (tasks : list json) : string :=
  match kept_tasks tasks with
  | [] => "No valid tasks found in your Todoist!"
  | kept => "Here are your upcoming tasks:" +:+ nl +:+ join nl (map bullet kept)
  end.

(** The world after one more call. *)
Definition logged (c : call) (w : world) : world :=
  {| sess := sess w; calls := calls w ++ [c] |}.

(** The world after [ask_preference_questions]. *)
Definition after_ask (w : world) : world :=
  match next_unset (user_prefs (sess w)) with
  | Some k => with_prefs (user_prefs (sess w)) (Some k) w
  | None => w
  end.

(** The response of the pending-preference branch once [prefs] holds
    the answer: the acknowledgment, and the next question if one remains. *)
Definition pending_response (prefs : prefs_dict) : string :=
  match question_of prefs (next_unset prefs) with
  | Some q => acknowledgment +:+ nl +:+ nl +:+ q
  | None => acknowledgment
  end.

(** The location a weather request is looked up for. *)
Definition weather_location (utterance stored : string) : string :=
  if truthy (weather_override utterance) then weather_override utterance
  else stored.

(** What the branch [b] returns and leaves behind, for the utterance [u]
    in the world [w]. *)
Definition branch_outcome (b : branch) (E : env) (u : string) (w : world)
    (text : string) (w' : world) : Prop :=
  let prefs := user_prefs (sess w) in
  match b with
  | PendingPreference =>
      ∃ k, awaiting_preference (sess w) = Some k ∧
           text = pending_response (<[k := Some u]> prefs) ∧
           w' = with_prefs (<[k := Some u]> prefs)
                  (next_unset (<[k := Some u]> prefs)) w
  | ManualName =>
      ∃ t, text_after "my name is" (lower u) = Some t ∧
           text = acknowledgment ∧
           w' = with_prefs (<["name" := Some (strip t)]> prefs) None w
  | ManualLocation =>
      ∃ t, text_after "set location to" (lower u) = Some t ∧
           text = acknowledgment ∧
           w' = with_prefs (<["location" := Some (strip t)]> prefs) None w
  | IncompleteGuard =>
      ∃ k, next_unset prefs = Some k ∧
           text = str_opt (question_of prefs (Some k)) ∧
           w' = with_prefs prefs (Some k) w
  | Weather =>
      ∃ stored, prefs !! "location" = Some (Some stored) ∧
        get_weather E (Some (weather_location u stored)) w = (Val text, w') ∧
        w' = logged (WeatherGet (Some (weather_location u stored))) w
  | Tasks =>
      get_tasks E w = (Val text, w') ∧ w' = logged TodoistGet w
  | WhoAmI =>
      ∃ name stored, prefs !! "name" = Some (Some name) ∧
        prefs !! "location" = Some (Some stored) ∧
        text = "You are " +:+ name +:+ ", located in " +:+ stored +:+ ". " ∧
        w' = w
  | Help => text = help_text ∧ w' = w
  | Fallback =>
      text = match gemini_api E u with
             | Val answer => answer
             | Exc e => "Sorry, I encountered an error: " +:+ exn_str e
             end ∧
      w' = logged (GeminiGenerate u) w
  end.

(** What holds of every session the host can reach. *)
Definition session_invariant (s : session_state) : Prop :=
  conversation_state s ∧ cursor_consistent s.

(** The weather summary: six lines, a blank line between each two. *)
Definition weather_summary (location : option string)
    (text temp_c temp_f humidity wind_kph wind_mph uv : json) : string :=
  join (nl +:+ nl)
    ["🌤️ Weather in " +:+ str_opt location +:+ ":";
     "☁️ Condition: " +:+ py_str text;
     "🌡️ Temperature: " +:+ py_str temp_c +:+ degree +:+ "C (" +:+
       py_str temp_f +:+ degree +:+ "F)";
     "💧 Humidity: " +:+ py_str humidity +:+ "%";
     "🌬️ Wind: " +:+ py_str wind_kph +:+ " km/h (" +:+
       py_str wind_mph +:+ " mph)";
     "🌞 UV Index: " +:+ py_str uv].

(** ** Sample data *)

Definition sunny_current : list (string * json) :=
  [("condition", JDict [("text", JStr "Sunny")]);
   ("temp_c", JInt 25); ("temp_f", JInt 77); ("humidity", JInt 40);
   ("wind_kph", JInt 10); ("wind_mph", JFloat "6.2"); ("uv", JInt 5)].

Definition sunny_payload : json := JDict [("current", JDict sunny_current)].

Definition three_tasks : list json :=
  [JDict [("content", JStr "Buy milk")];
   JDict [("content", JStr "Call Bob")];
   JDict [("notcontent", JStr "x")]].

Definition sample_env : env :=
  {| weather_api := fun _ => Val sunny_payload;
     todoist_api := Val {| status_code := 200;
                           json_body := Val (JList three_tasks) |};
     gemini_api := fun _ => Exc (Exn OtherError "quota exceeded") |}.

(** Both preferences set, no question pending. *)
Definition settled_session : session_state :=
  {| messages := [];
     user_prefs := <["name" := Some "Alex"]>
                     (<["location" := Some "Colombo"]> ∅);
     awaiting_preference := None |}.

Definition settled_world : world := {| sess := settled_session; calls := [] |}.

(** Both preferences unset, and no question pending. *)
Definition blank_session : session_state :=
  {| messages := [];
     user_prefs := <["name" := None]> (<["location" := None]> ∅);
     awaiting_preference := None |}.

Definition blank_world : world := {| sess := blank_session; calls := [] |}.

(** ** The script around the functions *)

(** What the user did that makes Streamlit run the script: nothing (a
    first load or a rerun), a text sent through the chat input, or one
    of the three buttons of the sidebar. *)
Inductive event : Type :=
| NoEvent
| ChatInput (prompt : string)
| WeatherButton
| TasksButton
| ClearButton.

(** [st.session_state.messages.append({"role": r, "content": content})] *)
Definition append_message (r : role) (content : string) : M unit :=
  modify_session (fun s =>
    {| messages := messages s ++ [{| msg_role := r; msg_content := content |}];
       user_prefs := user_prefs s;
       awaiting_preference := awaiting_preference s |}).

(** [st.session_state.messages = []] *)
Definition clear_messages : M unit :=
  modify_session (fun s =>
    {| messages := [];
       user_prefs := user_prefs s;
       awaiting_preference := awaiting_preference s |}).

(** What [st.chat_input] returns in a run. *)
Definition chat_input (ev : event) : option string :=
  match ev with
  | ChatInput prompt => Some prompt
  | _ => None
  end.

(** Lines 199 to 213. *)
Definition chat_block (E : env) (ev : event) : M unit :=
  match chat_input ev with
  | Some prompt =>
      if truthy prompt then
        append_message User prompt ;;
        response <- generate_response E prompt ;;
        append_message Assistant response
      else ret tt
  | None => ret tt
  end.

(** [all(v is None for v in user_prefs.values())] *)
Definition all_None (prefs : gmap string (option string)) : bool :=
  bool_decide (map_Forall (fun _ v => v = None) prefs).

(** Lines 216 to 220.  Under the condition of line 216 the question is
    a [str]; a [None] would be kept by the text [st.markdown] shows
    for it. *)
Definition opening_block : M unit :=
  s <- get_session ;;
  if all_None (user_prefs s) && bool_decide (messages s = []) then
    initial_question <- ask_preference_questions ;;
    append_message Assistant (str_opt initial_question)
  else ret tt.

(** Lines 229 to 242; the result tells whether [st.rerun()] was called.
    The lines 224 to 226 and 244 to 246 only display. *)
Definition sidebar_block (E : env) (ev : event) : M bool :=
  match ev with
  | WeatherButton =>
      append_message User "weather" ;;
      answer <- handle_quick_action E "weather" ;;
      append_message Assistant answer ;;
      ret true
  | TasksButton =>
      append_message User "show my tasks" ;;
      answer <- handle_quick_action E "tasks" ;;
      append_message Assistant answer ;;
      ret true
  | ClearButton => clear_messages ;; ret true
  | _ => ret false
  end.

(** One pass over the script, from line 28 on, for a session that lines
    18 to 26 have set up. *)
Definition script_pass (E : env) (ev : event) : M bool :=
  chat_block E ev ;; opening_block ;; sidebar_block E ev.

(** A run of the script: [st.rerun()] stops the pass and starts the
    script again, with no event. *)
Definition script_run (E : env) (ev : event) : M unit :=
  rerun <- script_pass E ev ;;
  if rerun : bool then (script_pass E NoEvent ;; ret tt) else ret tt.

(** A string that [lower] and [strip] leave as it is. *)
Definition normalized (s : string) : Prop := lower s = s ∧ strip s = s.

Definition user_message (content : string) : message :=
  {| msg_role := User; msg_content := content |}.

Definition assistant_message (content : string) : message :=
  {| msg_role := Assistant; msg_content := content |}.

(** The world after the opening block (lines 216 to 220): with no
    preference set and an empty history the name question is asked and
    put into the history; otherwise nothing happens. *)
Definition opened (w : world) : world :=
  if all_None (user_prefs (sess w)) && bool_decide (messages (sess w) = [])
  then with_messages [assistant_message name_question]
         (with_prefs (user_prefs (sess w)) (Some "name") w)
  else w.

(** A string is trimmed at the left when it is empty or starts with a
    character that is no whitespace. *)
Definition left_trimmed (s : string) : Prop :=
  match s with
  | EmptyString => True
  | String c _ => isspace c = false
  end.

(** ** More sample data *)

Definition teapot_env : env :=
  {| weather_api := fun _ => Val JNull;
     todoist_api := Val {| status_code := 418;
                           json_body := Exc (Exn ValueError "no JSON") |};
     gemini_api := fun _ => Val "ok" |}.

Definition garbled_env : env :=
  {| weather_api := fun _ => Val JNull;
     todoist_api := Val {| status_code := 200;
                           json_body := Exc (Exn ValueError "no JSON") |};
     gemini_api := fun _ => Val "ok" |}.

Definition five_blanks : list json := replicate 5 (JDict []).

Definition late_task_env (tasks : list json) : env :=
  {| weather_api := fun _ => Val JNull;
     todoist_api := Val {| status_code := 200; json_body := Val (JList tasks) |};
     gemini_api := fun _ => Val "ok" |}.

Definition echo_env : env :=
  {| weather_api := fun _ => Val JNull;
     todoist_api := Exc (Exn OtherError "offline");
     gemini_api := fun prompt => Val ("You said: " +:+ prompt) |}.

(** A preference record without the key "location". *)
Definition nameonly_world : world :=
  {| sess := {| messages := [];
                user_prefs := <["name" := Some "Alex"]> ∅;
                awaiting_preference := None |};
     calls := [] |}.

(** The session after the user has answered the opening question with
    "Alex", and after the second answer "Colombo". *)
Definition first_answer_world : world :=
  (generate_response sample_env "Alex" fresh_world).2.

Definition onboarded_world : world :=
  (generate_response sample_env "Colombo" first_answer_world).2.

(** * Properties *)

(** ** Strings *)

Lemma append_empty_r s : s +:+ EmptyString = s.
Proof.
  induction s as [|c s IH]; [reflexivity|].
  change (String c (s +:+ EmptyString) = String c s). by rewrite IH.
Qed.

Lemma append_assoc_str (a b c : string) : (a +:+ b) +:+ c = a +:+ (b +:+ c).
Proof.
  induction a as [|x a IH]; [reflexivity|].
  change (String x ((a +:+ b) +:+ c) = String x (a +:+ (b +:+ c))).
  by rewrite IH.
Qed.

Lemma length_nonempty s :
  s ≠ EmptyString → ∃ n, String.length s = S n.
Proof. destruct s as [|c s]; [done|]. intros _. by exists (String.length s). Qed.

Lemma prefix_empty_r sep : sep ≠ EmptyString → String.prefix sep EmptyString = false.
Proof. destruct sep; [done|reflexivity]. Qed.

Lemma contains_find sub s :
  contains sub s = bool_decide (is_Some (find_str sub s)).
Proof.
  induction s as [|c s IH]; cbn [contains find_str].
  - destruct (String.prefix sub EmptyString); reflexivity.
  - destruct (String.prefix sub (String c s)); [reflexivity|].
    cbn. rewrite IH. destruct (find_str sub s); reflexivity.
Qed.

Lemma contains_app_r x a s :
  contains x s = true → contains x (a +:+ s) = true.
Proof.
  intros Hs. induction a as [|c a IH]; [done|].
  change (contains x (String c (a +:+ s)) = true).
  cbn [contains]. rewrite IH. apply orb_true_r.
Qed.

Lemma contains_here x s : contains x (x +:+ s) = true.
Proof.
  assert (String.prefix x (x +:+ s) = true) as Hp.
  { induction x as [|c x IH]; [by destruct s|].
    change (String.prefix (String c x) (String c (x +:+ s)) = true).
    cbn [String.prefix]. destruct (ascii_dec c c); [exact IH|done]. }
  destruct x as [|c x]; [by destruct s|].
  change (contains (String c x) (String c (x +:+ s)) = true).
  cbn [contains]. change (String c (x +:+ s)) with (String c x +:+ s).
  by rewrite Hp.
Qed.

Lemma contains_self x : contains x x = true.
Proof. rewrite <- (append_empty_r x) at 2. apply contains_here. Qed.

Lemma split_from_skip sep k cur s :
  split_from sep k cur s = split_from sep 0 cur (drop_str k s).
Proof.
  revert k; induction s as [|c s IH]; intros [|k]; cbn [split_from drop_str];
    try reflexivity.
  apply IH.
Qed.

(** Splitting at a separator that is not empty. *)
Section Split.
Context (sep : string) (Hsep : sep ≠ EmptyString).

Lemma split_from_none cur s :
  find_str sep s = None →
  split_from sep 0 cur s = [cur +:+ s].
Proof.
  revert cur; induction s as [|c s IH]; intros cur;
    cbn [find_str split_from].
  - intros _. by rewrite append_empty_r.
  - destruct (String.prefix sep (String c s)); [done|].
    destruct (find_str sep s); [done|]. intros _.
    rewrite IH by done. by rewrite append_assoc_str.
Qed.

Lemma split_from_find cur s i :
  find_str sep s = Some i →
  split_from sep 0 cur s =
    (cur +:+ take_str i s)
    :: split_from sep 0 EmptyString (drop_str (i + String.length sep) s).
Proof.
  revert cur i; induction s as [|c s IH]; intros cur i.
  - cbn [find_str]. by rewrite prefix_empty_r.
  - cbn [find_str split_from].
    destruct (String.prefix sep (String c s)).
    + intros [= <-]. cbn [take_str]. rewrite append_empty_r. f_equal.
      rewrite split_from_skip. f_equal.
      destruct (length_nonempty sep Hsep) as [n ->]. cbn. by rewrite Nat.sub_0_r.
    + destruct (find_str sep s) as [j|] eqn:Hj; [|done].
      intros [= <-]. rewrite (IH _ j) by done.
      cbn [take_str drop_str Nat.add]. by rewrite append_assoc_str.
Qed.

Lemma split_second s t :
  text_after sep s = Some t →
  list_getitem (split sep s) 1 = Val t.
Proof.
  unfold text_after, split, list_getitem.
  destruct (find_str sep s) as [i|] eqn:Hi; [|done]. cbn.
  intros [= <-]. rewrite (split_from_find _ _ i) by done. cbn.
  destruct (find_str sep (drop_str _ s)) as [j|] eqn:Hj.
  - by rewrite (split_from_find _ _ j).
  - by rewrite split_from_none.
Qed.

End Split.

Lemma text_after_contains sep s :
  contains sep s = true → is_Some (text_after sep s).
Proof.
  rewrite contains_find. intros H%bool_decide_eq_true_1.
  destruct H as [i Hi]. unfold text_after. rewrite Hi. cbn. eauto.
Qed.

Lemma find_first {A} (f : A → bool) (l : list A) (x : A) :
  find f l = Some x →
  ∃ earlier later,
    l = earlier ++ x :: later ∧
    Forall (fun y => f y = false) earlier ∧ f x = true.
Proof.
  induction l as [|y l IH]; cbn; [done|].
  destruct (f y) eqn:Hy.
  - intros [= ->]. exists [], l. done.
  - intros (earlier & later & -> & Hall & Hx)%IH.
    exists (y :: earlier), later. split; [done|]. split; [|done].
    by constructor.
Qed.

Lemma calls_not_grown (l : list call) c : l ≠ l ++ [c].
Proof.
  intros H. apply (f_equal length) in H. rewrite length_app in H. cbn in H. lia.
Qed.

(** ** The preference store *)

Lemma lookup_update_same (prefs : prefs_dict) k v :
  ({[k := v]} ∪ prefs) !! k = Some v.
Proof. rewrite <- insert_union_singleton_l. apply lookup_insert_eq. Qed.

Lemma lookup_update_other (prefs : prefs_dict) k k' v :
  k ≠ k' → ({[k := v]} ∪ prefs) !! k' = prefs !! k'.
Proof. intros. rewrite <- insert_union_singleton_l. by apply lookup_insert_ne. Qed.

Lemma next_unset_None (prefs : prefs_dict) :
  is_Some (prefs !! "name") → is_Some (prefs !! "location") →
  next_unset prefs = None →
  is_set prefs "name" ∧ is_set prefs "location".
Proof.
  unfold next_unset, is_set. intros [n Hn] [l Hl]. rewrite Hn, Hl.
  destruct n, l; try done. eauto.
Qed.

Lemma next_unset_Some (prefs : prefs_dict) k :
  next_unset prefs = Some k →
  (k = "name" ∧ unset prefs "name") ∨
  (k = "location" ∧ unset prefs "location" ∧ ¬ unset prefs "name").
Proof.
  unfold next_unset, unset.
  destruct (prefs !! "name") as [[n|]|]; [| intros [= <-]; by left |];
    destruct (prefs !! "location") as [[l|]|]; try done;
    intros [= <-]; right; done.
Qed.

Lemma is_set_insert (prefs : prefs_dict) k k' v :
  is_set prefs k' → is_set (<[k := Some v]> prefs) k'.
Proof.
  intros [x Hx]. unfold is_set. destruct (decide (k = k')) as [->|Hne].
  - rewrite lookup_insert_eq. eauto.
  - rewrite lookup_insert_ne by done. eauto.
Qed.

Lemma is_set_is_Some (prefs : prefs_dict) k : is_set prefs k → is_Some (prefs !! k).
Proof. intros [x Hx]. eauto. Qed.

Lemma ask_preference_questions_run w :
  is_Some (user_prefs (sess w) !! "name") →
  is_Some (user_prefs (sess w) !! "location") →
  ask_preference_questions w =
    (Val (question_of (user_prefs (sess w)) (next_unset (user_prefs (sess w)))),
     after_ask w).
Proof.
  intros [n Hn] [l Hl].
  unfold ask_preference_questions, after_ask, next_unset, prefs_getitem, bind, get_session.
  cbn. rewrite Hn. destruct n as [n|]; cbn.
  - rewrite Hl. destruct l as [l|]; cbn; [reflexivity|].
    rewrite Hn. cbn. unfold location_question. rewrite Hn. reflexivity.
  - reflexivity.
Qed.

Lemma truthy_question prefs k : truthy_opt (question_of prefs (Some k)) = true.
Proof. unfold question_of. destruct (String.eqb k "name"); reflexivity. Qed.

(** ** The lookups *)

Ltac step_lift :=
  match goal with
  | |- context [match ?r with Val _ => _ | Exc _ => _ end] =>
      destruct r eqn:?; cbn
  | |- context [if ?b then _ else _] => destruct b eqn:?; cbn
  end.

Lemma get_weather_returns E q w :
  ∃ text, get_weather E q w = (Val text, logged (WeatherGet q) w).
Proof.
  unfold get_weather, try_except, request_weather, bind, perform, lift, logged.
  cbn. repeat step_lift; eauto.
Qed.

Lemma get_weather_raised E q w e :
  weather_api E q = Exc e →
  get_weather E q w =
    (Val ("Error getting weather: " +:+ exn_str e), logged (WeatherGet q) w).
Proof.
  intros HE. unfold get_weather, try_except, request_weather, bind, perform, lift.
  cbn. rewrite HE. reflexivity.
Qed.

Lemma collect_tasks_run tasks acc w :
  collect_tasks tasks acc w =
    (Val (acc ++ map bullet (filter (fun t => is_task_record t = true) tasks)), w).
Proof.
  revert acc; induction tasks as [|task tasks IH]; intros acc.
  - cbn. by rewrite app_nil_r.
  - cbn [collect_tasks]. unfold bind at 1.
    destruct task as [| | | | |l|d]; cbn [is_dict];
      try (unfold ret at 1; rewrite IH; rewrite filter_cons_False by done;
           reflexivity).
    unfold lift at 1. cbn [py_in].
    destruct (dict_lookup "content" d) as [x|] eqn:Hx.
    + rewrite bool_decide_eq_true_2 by eauto.
      unfold bind at 1, lift at 1. cbn [getitem]. rewrite Hx.
      rewrite IH. rewrite filter_cons_True.
      2:{ cbn. rewrite Hx. by rewrite bool_decide_eq_true_2 by eauto. }
      cbn [map bullet]. rewrite Hx. cbn [default]. by rewrite <- app_assoc.
    + rewrite bool_decide_eq_false_2 by (intros [? ?]; done).
      rewrite IH. rewrite filter_cons_False; [reflexivity|].
      cbn. rewrite Hx. rewrite bool_decide_eq_false_2; [done|]. intros [? ?]; done.
Qed.

Lemma kept_tasks_length tasks : (length (kept_tasks tasks) ≤ 5)%nat.
Proof.
  unfold kept_tasks.
  etrans; [apply length_filter|]. rewrite length_take. lia.
Qed.

Lemma kept_tasks_elem tasks t :
  t ∈ kept_tasks tasks ↔
  t ∈ take 5 tasks ∧ ∃ d c, t = JDict d ∧ dict_lookup "content" d = Some c.
Proof.
  unfold kept_tasks. rewrite list_elem_of_filter. split.
  - intros [Hrec Hin]. split; [done|].
    destruct t as [| | | | | |d]; try discriminate. cbn in Hrec.
    apply bool_decide_eq_true_1 in Hrec as [c Hc]. eauto.
  - intros [Hin (d & c & -> & Hc)]. split; [|done].
    cbn. rewrite Hc. by apply bool_decide_eq_true_2.
Qed.

Lemma get_tasks_list E w tasks :
  todoist_api E = Val {| status_code := 200; json_body := Val (JList tasks) |} →
  get_tasks E w = (Val (task_summary tasks), logged TodoistGet w).
Proof.
  intros HE. unfold get_tasks, try_except, request_tasks, bind, perform, lift.
  cbn. rewrite HE. cbn. rewrite collect_tasks_run. cbn [app].
  unfold task_summary, kept_tasks.
  destruct (filter _ (take 5 tasks)) as [|t ts]; reflexivity.
Qed.

Lemma get_tasks_returns E w :
  ∃ text, get_tasks E w = (Val text, logged TodoistGet w).
Proof.
  unfold get_tasks, try_except, request_tasks, bind, perform, lift, logged.
  cbn. destruct (todoist_api E) as [[code body]|e]; cbn; [|eauto].
  destruct (code =? 200); cbn; [|eauto].
  destruct body as [tasks|e]; cbn.
  - destruct tasks; cbn; eauto. rewrite collect_tasks_run. cbn [app].
    destruct (map _ _); cbn; eauto.
  - destruct (is_ValueError e); cbn; eauto.
Qed.

Lemma get_tasks_raised E w e :
  todoist_api E = Exc e →
  get_tasks E w =
    (Val ("Error getting tasks: " +:+ exn_str e), logged TodoistGet w).
Proof.
  intros HE. unfold get_tasks, try_except, request_tasks, bind, perform, lift.
  cbn. rewrite HE. reflexivity.
Qed.

(** ** Dispatch *)

Lemma first_match_cases s u :
  first_match s u = Some (
    if bool_decide (is_Some (awaiting_preference s)) then PendingPreference
    else if contains "my name is" (lower u) then ManualName
    else if contains "set location to" (lower u) then ManualLocation
    else if bool_decide (is_Some (next_unset (user_prefs s))) then IncompleteGuard
    else if contains "weather" (lower u) then Weather
    else if contains "tasks" (lower u) || contains "todo" (lower u) then Tasks
    else if contains "who am i" (lower u) then WhoAmI
    else if contains "help" (lower u) then Help
    else Fallback).
Proof.
  unfold first_match, dispatch_order. cbn [find triggers].
  repeat match goal with |- context [if ?c then _ else _] => destruct c end;
    reflexivity.
Qed.

Lemma first_match_inv s u b :
  first_match s u = Some b →
  triggers s u b = true ∧
  (b ≠ PendingPreference → awaiting_preference s = None) ∧
  (b ∈ [Weather; Tasks; WhoAmI; Help; Fallback] →
   next_unset (user_prefs s) = None ∧
   contains "my name is" (lower u) = false ∧
   contains "set location to" (lower u) = false).
Proof.
  rewrite first_match_cases. unfold triggers.
  destruct (awaiting_preference s) as [k|]; cbn [bool_decide decide_rel is_Some_dec].
  { intros [= <-]. split; [reflexivity|]. split; [done|].
    intros H. repeat (apply elem_of_cons in H as [H|H]; [discriminate|]).
    by apply elem_of_nil in H. }
  destruct (contains "my name is" (lower u)) eqn:H1.
  { intros [= <-]. split; [done|]. split; [done|].
    intros H. repeat (apply elem_of_cons in H as [H|H]; [discriminate|]).
    by apply elem_of_nil in H. }
  destruct (contains "set location to" (lower u)) eqn:H2.
  { intros [= <-]. split; [done|]. split; [done|].
    intros H. repeat (apply elem_of_cons in H as [H|H]; [discriminate|]).
    by apply elem_of_nil in H. }
  destruct (next_unset (user_prefs s)) as [k|] eqn:H3; cbn [bool_decide decide_rel is_Some_dec].
  { intros [= <-]. split; [reflexivity|]. split; [done|].
    intros H. repeat (apply elem_of_cons in H as [H|H]; [discriminate|]).
    by apply elem_of_nil in H. }
  repeat match goal with
         | |- context [if ?c then _ else _] => destruct c eqn:?
         end; intros [= <-]; auto.
Qed.

Lemma dispatch_refines E w u :
  conversation_state (sess w) →
  ∃ b, first_match (sess w) u = Some b ∧
       generate_response E u w = run_branch b E u w.
Proof.
  intros (Hn & Hl & Haw).
  rewrite first_match_cases.
  unfold generate_response, bind at 1, get_session at 1. cbn [fst snd].
  destruct Haw as [Haw | [Haw | Haw]]; rewrite Haw.
  - cbn -[orb].
    destruct (contains "my name is" (lower u)) eqn:Hname.
    { eexists; split; [reflexivity|]. reflexivity. }
    destruct (contains "set location to" (lower u)) eqn:Hloc.
    { eexists; split; [reflexivity|]. reflexivity. }
    unfold bind at 1. rewrite ask_preference_questions_run by assumption.
    unfold after_ask.
    destruct (next_unset (user_prefs (sess w))) as [k|] eqn:Hnext.
    { rewrite truthy_question. eexists; split; [reflexivity|].
      cbn. unfold bind. rewrite ask_preference_questions_run by assumption.
      unfold after_ask. rewrite Hnext. reflexivity. }
    cbn [question_of truthy_opt].
    destruct (contains "weather" (lower u)) eqn:Hw.
    { eexists; split; [reflexivity|]. reflexivity. }
    destruct (contains "tasks" (lower u) || contains "todo" (lower u)) eqn:Ht.
    { eexists; split; [reflexivity|]. reflexivity. }
    destruct (contains "who am i" (lower u)) eqn:Hwho.
    { eexists; split; [reflexivity|]. reflexivity. }
    destruct (contains "help" (lower u)) eqn:Hh.
    { eexists; split; [reflexivity|]. reflexivity. }
    eexists; split; [reflexivity|]. reflexivity.
  - exists PendingPreference. split; [reflexivity|].
    cbn. unfold bind. cbn. rewrite Haw.
    rewrite bool_decide_eq_true_2 by reflexivity. cbn.
    rewrite !ask_preference_questions_run; cbn.
    all: try (destruct Hl as [l Hl]; rewrite lookup_update_other by done; eauto).
    all: try (rewrite lookup_update_same; eauto).
    destruct (next_unset _) as [k|] eqn:Hnext.
    + unfold question_of. destruct (String.eqb k "name"); reflexivity.
    + reflexivity.
  - exists PendingPreference. split; [reflexivity|].
    cbn. unfold bind. cbn. rewrite Haw.
    rewrite bool_decide_eq_false_2 by discriminate. cbn.
    rewrite !ask_preference_questions_run; cbn.
    all: try (destruct Hn as [n Hn]; rewrite lookup_update_other by done; eauto).
    all: try (rewrite lookup_update_same; eauto).
    destruct (next_unset _) as [k|] eqn:Hnext.
    + unfold question_of. destruct (String.eqb k "name"); reflexivity.
    + reflexivity.
Qed.

Lemma run_pending E u w k :
  conversation_state (sess w) →
  awaiting_preference (sess w) = Some k →
  let prefs' := <[k := Some u]> (user_prefs (sess w)) in
  run_branch PendingPreference E u w =
    (Val (pending_response prefs'), with_prefs prefs' (next_unset prefs') w).
Proof.
  intros (Hn & Hl & Haw) Hk prefs'. subst prefs'. unfold pending_response.
  rewrite insert_union_singleton_l.
  cbn. unfold bind. cbn. rewrite Hk.
  destruct Haw as [Haw | [Haw | Haw]]; rewrite Haw in Hk; simplify_eq.
  - rewrite bool_decide_eq_true_2 by reflexivity. cbn.
    rewrite ask_preference_questions_run; cbn.
    2:{ rewrite lookup_update_same; eauto. }
    2:{ rewrite lookup_update_other by done; eauto. }
    unfold after_ask. cbn.
    destruct (next_unset _) as [k|]; cbn; [|reflexivity].
    destruct (String.eqb k "name"); reflexivity.
  - rewrite bool_decide_eq_false_2 by discriminate. cbn.
    rewrite ask_preference_questions_run; cbn.
    2:{ rewrite lookup_update_other by done; eauto. }
    2:{ rewrite lookup_update_same; eauto. }
    unfold after_ask. cbn.
    destruct (next_unset _) as [k|]; cbn; [|reflexivity].
    destruct (String.eqb k "name"); reflexivity.
Qed.

Lemma run_manual u w (phrase field : string) t :
  phrase ≠ EmptyString →
  text_after phrase (lower u) = Some t →
  (parts <- lift (str_split (lower u) phrase) ;;
   x <- lift (list_getitem parts 1) ;;
   update_preferences {[field := Some (strip x)]})%py w =
    (Val acknowledgment,
     with_prefs (<[field := Some (strip t)]> (user_prefs (sess w))) None w).
Proof.
  intros Hne Ht. unfold bind, lift, str_split.
  destruct phrase as [|c phrase]; [done|].
  rewrite (split_second (String c phrase) Hne _ t Ht).
  rewrite insert_union_singleton_l. reflexivity.
Qed.

Lemma run_guard E u w k :
  conversation_state (sess w) →
  next_unset (user_prefs (sess w)) = Some k →
  run_branch IncompleteGuard E u w =
    (Val (str_opt (question_of (user_prefs (sess w)) (Some k))),
     with_prefs (user_prefs (sess w)) (Some k) w).
Proof.
  intros (Hn & Hl & _) Hk. cbn. unfold bind.
  rewrite ask_preference_questions_run by done.
  unfold after_ask. rewrite Hk. reflexivity.
Qed.

Lemma run_weather E u w loc :
  user_prefs (sess w) !! "location" = Some (Some loc) →
  run_branch Weather E u w =
    get_weather E (Some (weather_location u loc)) w.
Proof.
  intros Hl. cbn [run_branch]. unfold bind at 1, weather_location.
  destruct (truthy (weather_override u)); [reflexivity|].
  unfold prefs_getitem, bind, get_session. cbn. rewrite Hl. reflexivity.
Qed.

Lemma run_who_am_i E u w name loc :
  user_prefs (sess w) !! "name" = Some name →
  user_prefs (sess w) !! "location" = Some loc →
  run_branch WhoAmI E u w =
    (Val ("You are " +:+ str_opt name +:+ ", located in " +:+
          str_opt loc +:+ ". "), w).
Proof.
  intros Hn Hl. cbn. unfold prefs_getitem, bind, get_session. cbn.
  rewrite Hn. cbn. rewrite Hl. reflexivity.
Qed.

Lemma fallback_run E u w :
  run_branch Fallback E u w =
    (Val match gemini_api E u with
         | Val answer => answer
         | Exc e => "Sorry, I encountered an error: " +:+ exn_str e
         end,
     logged (GeminiGenerate u) w).
Proof.
  cbn. unfold try_except, generate_content, bind, perform, lift, logged. cbn.
  destruct (gemini_api E u); reflexivity.
Qed.

Lemma respond_outcome E w u :
  conversation_state (sess w) →
  ∃ b text w',
    first_match (sess w) u = Some b ∧
    generate_response E u w = (Val text, w') ∧
    branch_outcome b E u w text w'.
Proof.
  intros Hcs. destruct (dispatch_refines E w u Hcs) as (b & Hb & Hrun).
  destruct (first_match_inv _ _ _ Hb) as (Htrig & Haw & Hlate).
  exists b. rewrite Hrun. pose proof Hcs as (Hn & Hl & _).
  destruct b; cbn [triggers] in Htrig.
  - apply bool_decide_eq_true_1 in Htrig as [k Hk].
    eexists _, _. split; [done|]. split; [by apply run_pending|].
    exists k. done.
  - apply text_after_contains in Htrig as [t Ht].
    eexists _, _. split; [done|]. split; [by apply (run_manual u w _ _ t)|].
    exists t. done.
  - apply text_after_contains in Htrig as [t Ht].
    eexists _, _. split; [done|]. split; [by apply (run_manual u w _ _ t)|].
    exists t. done.
  - apply bool_decide_eq_true_1 in Htrig as [k Hk].
    eexists _, _. split; [done|]. split; [by apply run_guard|].
    exists k. done.
  - destruct Hlate as (Hnone & _); [set_solver|].
    destruct (next_unset_None _ Hn Hl Hnone) as (_ & loc & Hloc).
    rewrite (run_weather _ _ _ loc) by done.
    destruct (get_weather_returns E (Some (weather_location u loc)) w)
      as [text Htext].
    fold (weather_location u loc). rewrite Htext.
    eexists _, _. split; [done|]. split; [done|]. exists loc. done.
  - destruct (get_tasks_returns E w) as [text Ht].
    eexists _, _. split; [done|]. split; [exact Ht|]. done.
  - destruct Hlate as (Hnone & _); [set_solver|].
    destruct (next_unset_None _ Hn Hl Hnone) as ((name & Hname) & loc & Hloc).
    eexists _, _. split; [done|].
    split; [by apply (run_who_am_i E u w (Some name) (Some loc))|].
    exists name, loc. done.
  - eexists _, _. split; [done|]. split; [reflexivity|]. done.
  - eexists _, _. split; [done|]. split; [apply fallback_run|]. done.
Qed.

(** ** The session invariant *)

Lemma next_unset_invariant (prefs : prefs_dict) ms :
  is_Some (prefs !! "name") → is_Some (prefs !! "location") →
  session_invariant {| messages := ms; user_prefs := prefs;
                       awaiting_preference := next_unset prefs |}.
Proof.
  intros Hn Hl. unfold session_invariant, conversation_state, cursor_consistent.
  cbn. destruct (next_unset prefs) as [k|] eqn:Hk.
  - apply next_unset_Some in Hk as [[-> Hu] | (-> & Hu & Hnn)].
    + split; [by eauto|]. left. done.
    + split; [by eauto 6|]. right; left. split; [done|]. split; [|done].
      destruct Hn as [[n|] Hn]; [by exists n|]. done.
  - destruct (next_unset_None _ Hn Hl Hk). split; [by eauto|]. right; right. done.
Qed.

Lemma manual_invariant w k v :
  session_invariant (sess w) → awaiting_preference (sess w) = None →
  session_invariant (sess (with_prefs (<[k := Some v]> (user_prefs (sess w))) None w)).
Proof.
  intros [_ Hc] Haw. destruct Hc as [[Hc _] | [[Hc _] | (_ & Hn & Hl)]];
    [congruence..|].
  apply (is_set_insert _ k _ v) in Hn, Hl.
  split.
  - split; [by apply is_set_is_Some|]. split; [by apply is_set_is_Some|].
    by left.
  - right; right. done.
Qed.

Lemma pending_invariant w k v :
  conversation_state (sess w) →
  session_invariant
    (sess (with_prefs (<[k := Some v]> (user_prefs (sess w)))
             (next_unset (<[k := Some v]> (user_prefs (sess w)))) w)).
Proof.
  intros (Hn & Hl & _). apply next_unset_invariant.
  - destruct (decide (k = "name")) as [->|Hne].
    + rewrite lookup_insert_eq. eauto.
    + by rewrite lookup_insert_ne.
  - destruct (decide (k = "location")) as [->|Hne].
    + rewrite lookup_insert_eq. eauto.
    + by rewrite lookup_insert_ne.
Qed.

Lemma respond_invariant E u w r w' :
  session_invariant (sess w) →
  generate_response E u w = (r, w') →
  session_invariant (sess w').
Proof.
  intros Hinv Hrun. pose proof Hinv as [Hcs Hc].
  destruct (respond_outcome E w u Hcs) as (b & text & w'' & Hb & Hrun' & Heff).
  rewrite Hrun in Hrun'. injection Hrun' as _ <-.
  destruct (first_match_inv _ _ _ Hb) as (_ & Haw & _).
  destruct b; cbn in Heff.
  - destruct Heff as (k & _ & _ & ->). by apply pending_invariant.
  - destruct Heff as (t & _ & _ & ->). by apply manual_invariant; auto.
  - destruct Heff as (t & _ & _ & ->). by apply manual_invariant; auto.
  - destruct Heff as (k & Hk & _ & ->). cbn. rewrite <- Hk.
    destruct Hcs as (Hn & Hl & _). by apply next_unset_invariant.
  - destruct Heff as (q & _ & _ & ->). done.
  - destruct Heff as (_ & ->). done.
  - destruct Heff as (? & ? & _ & _ & _ & ->). done.
  - destruct Heff as (_ & ->). done.
  - destruct Heff as (_ & ->). done.
Qed.

Lemma quick_action_session E a w r w' :
  handle_quick_action E a w = (r, w') → sess w' = sess w.
Proof.
  unfold handle_quick_action.
  destruct (String.eqb a "weather").
  - unfold bind, prefs_get, get_session. cbn.
    destruct (get_weather_returns E
                (default (Some "Colombo") (user_prefs (sess w) !! "location")) w)
      as [text ->].
    by intros [= _ <-].
  - destruct (String.eqb a "tasks").
    + destruct (get_tasks_returns E w) as [text ->]. by intros [= _ <-].
    + by intros [= _ <-].
Qed.

Lemma ask_invariant w r w' :
  session_invariant (sess w) →
  ask_preference_questions w = (r, w') →
  session_invariant (sess w').
Proof.
  intros Hinv. pose proof Hinv as [(Hn & Hl & _) _].
  rewrite ask_preference_questions_run by done. intros [= _ <-].
  unfold after_ask. destruct (next_unset _) as [k|] eqn:Hk; [|done].
  cbn. rewrite <- Hk. by apply next_unset_invariant.
Qed.

Lemma fresh_invariant : session_invariant fresh_session.
Proof.
  split.
  - split; [|split]; [by eexists | by eexists | right; left; reflexivity].
  - left. split; reflexivity.
Qed.

Lemma reachable_invariant w : reachable w → session_invariant (sess w).
Proof.
  intros Hr.
  eapply (rtc_ind_r (fun w => session_invariant (sess w)) fresh_world);
    [apply fresh_invariant | | exact Hr].
  intros y z _ Hstep IH.
  destruct Hstep as [E u r Hs|E a r Hs|r Hs|ms ->].
  - by eapply respond_invariant.
  - by rewrite (quick_action_session _ _ _ _ _ Hs).
  - by eapply ask_invariant.
  - destruct IH as [(Hn & Hl & Haw) Hc]. done.
Qed.

(** In a reachable state the incomplete-preferences guard has nothing
    to ask: the cursor is absent only when both preferences are set. *)
Lemma guard_idle_when_reachable w u :
  reachable w → first_match (sess w) u ≠ Some IncompleteGuard.
Proof.
  intros Hr Hb. destruct (reachable_invariant w Hr) as [_ Hc].
  destruct (first_match_inv _ _ _ Hb) as (Htrig & Haw & _).
  cbn in Htrig. apply bool_decide_eq_true_1 in Htrig as [k Hk].
  specialize (Haw ltac:(done)).
  destruct Hc as [[? _] | [[? _] | (_ & [n Hn] & [l Hl])]]; [congruence..|].
  unfold next_unset in Hk. by rewrite Hn, Hl in Hk.
Qed.

(** So in a reachable state only the pending-preference branch and the
    manual assertion change the session. *)
Lemma respond_frame_reachable E w u b r w' :
  reachable w →
  first_match (sess w) u = Some b →
  b ∉ [PendingPreference; ManualName; ManualLocation] →
  generate_response E u w = (r, w') →
  sess w' = sess w.
Proof.
  intros Hr Hb Hnot Hrun.
  destruct (reachable_invariant w Hr) as [Hcs _].
  destruct (respond_outcome E w u Hcs) as (b' & text & w'' & Hb' & Hrun' & Hout).
  rewrite Hb in Hb'. injection Hb' as <-.
  rewrite Hrun in Hrun'. injection Hrun' as _ <-.
  destruct b; cbn in Hout.
  - destruct Hnot. rewrite !elem_of_cons. auto.
  - destruct Hnot. rewrite !elem_of_cons. auto.
  - destruct Hnot. rewrite !elem_of_cons. auto.
  - by destruct (guard_idle_when_reachable w u Hr).
  - by destruct Hout as (stored & _ & _ & ->).
  - by destruct Hout as (_ & ->).
  - by destruct Hout as (name & stored & _ & _ & _ & ->).
  - by destruct Hout as (_ & ->).
  - by destruct Hout as (_ & ->).
Qed.

Lemma settled_conversation_state : conversation_state settled_session.
Proof. split; [|split]; [by eexists | by eexists | by left]. Qed.

Lemma blank_conversation_state : conversation_state blank_session.
Proof. split; [|split]; [by eexists | by eexists | by left]. Qed.

(** The two sample states are reached by one and by two router calls. *)
Lemma first_answer_reachable : reachable first_answer_world.
Proof.
  apply rtc_once.
  apply (step_respond fresh_world first_answer_world sample_env "Alex"
           (generate_response sample_env "Alex" fresh_world).1).
  unfold first_answer_world. apply surjective_pairing.
Qed.

Lemma onboarded_reachable : reachable onboarded_world.
Proof.
  eapply rtc_r; [exact first_answer_reachable|].
  apply (step_respond first_answer_world onboarded_world sample_env "Colombo"
           (generate_response sample_env "Colombo" first_answer_world).1).
  unfold onboarded_world. apply surjective_pairing.
Qed.

Lemma first_answer_state :
  first_answer_world
  = with_prefs (<["name" := Some "Alex"]> (user_prefs fresh_session))
      (Some "location") fresh_world.
Proof. vm_compute. reflexivity. Qed.

Lemma onboarded_settled : onboarded_world = settled_world.
Proof. vm_compute. reflexivity. Qed.

Lemma settled_reachable : reachable settled_world.
Proof. rewrite <- onboarded_settled. exact onboarded_reachable. Qed.

(** ** The dialogue router *)

(** C1, amended. Whatever the conversation state and the utterance, the
    router runs the first branch, in the order pending preference, manual
    assertion, incomplete-preferences guard, weather, tasks or todo,
    who am i, help, generative fallback, whose trigger holds, and that
    branch alone: no earlier branch is triggered, and the later ones are
    not looked at.  So an utterance with both "weather" and "help" in it
    (both preferences set, no question pending, none of the phrases of the
    manual assertion) is answered by the weather lookup. *)
Theorem respond_dispatch_order (E : env) (w : world) (u : string) :
  conversation_state (sess w) →
  ∃ b,
    first_match (sess w) u = Some b ∧
    generate_response E u w = run_branch b E u w ∧
    (∃ earlier later,
       dispatch_order = earlier ++ b :: later ∧
       Forall (fun b' => triggers (sess w) u b' = false) earlier ∧
       triggers (sess w) u b = true) ∧
    (is_set (user_prefs (sess w)) "name" →
     is_set (user_prefs (sess w)) "location" →
     awaiting_preference (sess w) = None →
     contains "my name is" (lower u) = false →
     contains "set location to" (lower u) = false →
     contains "weather" (lower u) = true →
     contains "help" (lower u) = true →
     b = Weather).
Proof.
  intros Hcs. destruct (dispatch_refines E w u Hcs) as (b & Hb & Hrun).
  exists b. split; [done|]. split; [done|]. split.
  - by apply find_first.
  - intros (n & Hn) (l & Hl) Haw Hm1 Hm2 Hw _.
    rewrite first_match_cases in Hb. rewrite Haw, Hm1, Hm2, Hw in Hb.
    unfold next_unset in Hb. rewrite Hn, Hl in Hb. cbn in Hb. congruence.
Qed.

Lemma respond_dispatch_order_witness :
  conversation_state (sess settled_world) ∧
  ∃ b,
    first_match (sess settled_world) "weather help" = Some b ∧
    generate_response sample_env "weather help" settled_world
      = run_branch b sample_env "weather help" settled_world ∧
    (∃ earlier later,
       dispatch_order = earlier ++ b :: later ∧
       Forall (fun b' => triggers (sess settled_world) "weather help" b' = false)
         earlier ∧
       triggers (sess settled_world) "weather help" b = true) ∧
    (is_set (user_prefs (sess settled_world)) "name" →
     is_set (user_prefs (sess settled_world)) "location" →
     awaiting_preference (sess settled_world) = None →
     contains "my name is" (lower "weather help") = false →
     contains "set location to" (lower "weather help") = false →
     contains "weather" (lower "weather help") = true →
     contains "help" (lower "weather help") = true →
     b = Weather).
Proof.
  split; [exact settled_conversation_state|].
  apply (respond_dispatch_order sample_env settled_world "weather help").
  exact settled_conversation_state.
Defined.

(** C1 as stated fails: the session is settled and the utterance
    "my name is weather help" has both "weather" and "help" in it, yet
    the manual assertion, which comes earlier in the order, runs (lines
    159 to 161): the name becomes "weather help", the acknowledgment is
    returned and the weather provider is not called. *)
Lemma manual_phrase_beats_weather :
  reachable settled_world ∧
  is_set (user_prefs (sess settled_world)) "name" ∧
  is_set (user_prefs (sess settled_world)) "location" ∧
  awaiting_preference (sess settled_world) = None ∧
  contains "weather" (lower "my name is weather help") = true ∧
  contains "help" (lower "my name is weather help") = true ∧
  first_match (sess settled_world) "my name is weather help" = Some ManualName ∧
  generate_response sample_env "my name is weather help" settled_world
  = (Val acknowledgment,
     with_prefs (<["name" := Some "weather help"]>
                   (user_prefs (sess settled_world))) None settled_world) ∧
  calls (generate_response sample_env "my name is weather help" settled_world).2
  = [] ∧
  generate_response sample_env "my name is weather help" settled_world
  ≠ run_branch Weather sample_env "my name is weather help" settled_world.
Proof.
  split; [exact settled_reachable|].
  split; [by eexists|]. split; [by eexists|]. split; [reflexivity|].
  split; [vm_compute; reflexivity|]. split; [vm_compute; reflexivity|].
  split; [vm_compute; reflexivity|]. split; [vm_compute; reflexivity|].
  split; [vm_compute; reflexivity|].
  intros H. apply (f_equal (fun p => calls p.2)) in H. vm_compute in H.
  discriminate.
Qed.

Example weather_beats_help :
  ∃ text,
    generate_response sample_env "weather help" settled_world
    = (Val text, logged (WeatherGet (Some "help")) settled_world).
Proof. eexists. vm_compute. reflexivity. Qed.

(** C2. In every state the host can reach from the fresh session, the
    cursor is NAME only while the name is unset, LOCATION only while the
    name is set and the location unset, and absent exactly when both are
    set; no other combination of cursor and fields occurs. *)
Theorem awaiting_cursor_invariant (w : world) :
  reachable w → cursor_consistent (sess w).
Proof. intros Hr. by destruct (reachable_invariant w Hr). Qed.

Lemma awaiting_cursor_invariant_witness :
  (reachable first_answer_world ∧ cursor_consistent (sess first_answer_world)) ∧
  (reachable onboarded_world ∧ cursor_consistent (sess onboarded_world)).
Proof.
  split.
  - split; [exact first_answer_reachable|].
    apply (awaiting_cursor_invariant first_answer_world).
    exact first_answer_reachable.
  - split; [exact onboarded_reachable|].
    apply (awaiting_cursor_invariant onboarded_world).
    exact onboarded_reachable.
Defined.

(** After the first answer the cursor is at the location, the name is
    set and the location is unset; after the second the cursor is gone
    and both are set. *)
Example cursor_after_answers :
  awaiting_preference (sess first_answer_world) = Some "location" ∧
  user_prefs (sess first_answer_world) !! "name" = Some (Some "Alex") ∧
  user_prefs (sess first_answer_world) !! "location" = Some None ∧
  awaiting_preference (sess onboarded_world) = None ∧
  user_prefs (sess onboarded_world) !! "name" = Some (Some "Alex") ∧
  user_prefs (sess onboarded_world) !! "location" = Some (Some "Colombo").
Proof. repeat split; vm_compute; reflexivity. Qed.

(** Two answers settle a fresh session. *)
Example two_answers_settle :
  ∃ r1 w1 r2 w2,
    generate_response sample_env "Alex" fresh_world = (r1, w1) ∧
    generate_response sample_env "Colombo" w1 = (r2, w2) ∧
    reachable w2 ∧
    user_prefs (sess w2) = user_prefs settled_session ∧
    awaiting_preference (sess w2) = None ∧
    calls w2 = [].
Proof.
  eexists _, _, _, _. split; [vm_compute; reflexivity|].
  split; [vm_compute; reflexivity|]. split.
  - eapply rtc_l; [eapply (step_respond _ _ sample_env "Alex"); vm_compute; reflexivity|].
    eapply rtc_l; [eapply (step_respond _ _ sample_env "Colombo"); vm_compute; reflexivity|].
    apply rtc_refl.
  - split; [|done]. vm_compute. reflexivity.
Qed.

(** C3, amended. For an utterance whose lowercased text contains
    "weather" and none of the phrases of the manual assertion (both
    preferences set, no question pending), the override location is the
    lowercased utterance with every "weather" taken out and the
    surrounding whitespace trimmed; the weather lookup is called with
    it, and with the stored location when it is empty.  So "weather"
    with the stored location "Colombo" asks for "Colombo", and
    "weather Paris" asks for "paris". *)
Theorem weather_branch_location (E : env) (w : world) (u name stored : string) :
  user_prefs (sess w) !! "name" = Some (Some name) →
  user_prefs (sess w) !! "location" = Some (Some stored) →
  awaiting_preference (sess w) = None →
  contains "my name is" (lower u) = false →
  contains "set location to" (lower u) = false →
  contains "weather" (lower u) = true →
  let location :=
    if truthy (strip (replace "weather" "" (lower u)))
    then strip (replace "weather" "" (lower u)) else stored in
  generate_response E u w = get_weather E (Some location) w ∧
  (generate_response E u w).2 = logged (WeatherGet (Some location)) w ∧
  (u = "weather" → location = stored) ∧
  (u = "weather Paris" → location = "paris").
Proof.
  intros Hn Hl Haw Hm1 Hm2 Hw location.
  assert (generate_response E u w = get_weather E (Some location) w) as Heq.
  { unfold generate_response, bind at 1, get_session at 1. cbn [fst snd].
    rewrite Haw, Hm1, Hm2. unfold bind at 1.
    rewrite ask_preference_questions_run by eauto.
    unfold after_ask, next_unset. rewrite Hn, Hl. cbn [question_of truthy_opt].
    rewrite Hw. unfold bind at 1. subst location.
    destruct (truthy (strip (replace "weather" "" (lower u)))); [reflexivity|].
    unfold prefs_getitem, bind, get_session. cbn. rewrite Hl. reflexivity. }
  split; [done|]. split.
  - rewrite Heq. by destruct (get_weather_returns E (Some location) w) as [t ->].
  - split; intros ->; reflexivity.
Qed.

Lemma weather_branch_location_witness :
  user_prefs (sess settled_world) !! "name" = Some (Some "Alex") ∧
  user_prefs (sess settled_world) !! "location" = Some (Some "Colombo") ∧
  (generate_response sample_env "weather Paris" settled_world).2
    = logged (WeatherGet (Some "paris")) settled_world.
Proof.
  split; [reflexivity|]. split; [reflexivity|].
  apply (weather_branch_location sample_env settled_world "weather Paris"
           "Alex" "Colombo"); reflexivity.
Defined.

(** C3 as stated fails: for "weather Paris" the lookup is not called
    with the location "Paris". *)
Lemma weather_paris_is_lowercased :
  is_set (user_prefs (sess settled_world)) "name" ∧
  is_set (user_prefs (sess settled_world)) "location" ∧
  awaiting_preference (sess settled_world) = None ∧
  calls (generate_response sample_env "weather Paris" settled_world).2
    = [WeatherGet (Some "paris")] ∧
  calls (generate_response sample_env "weather Paris" settled_world).2
    ≠ [WeatherGet (Some "Paris")].
Proof.
  split; [by eexists|]. split; [by eexists|]. split; [reflexivity|].
  split; [vm_compute; reflexivity|]. vm_compute. discriminate.
Qed.

(** C4. In every conversation state the router returns a text and never
    raises.  A call of a provider that fails is turned into a message
    that carries the error, and whenever a provider was called at all the
    session (preferences, cursor and history) is as it was. *)
Theorem respond_never_raises (E : env) (w : world) (u : string) :
  conversation_state (sess w) →
  ∃ text w',
    generate_response E u w = (Val text, w') ∧
    (calls w' ≠ calls w → sess w' = sess w) ∧
    (∀ q e, calls w' = calls w ++ [WeatherGet q] → weather_api E q = Exc e →
            text = "Error getting weather: " +:+ exn_str e) ∧
    (∀ e, calls w' = calls w ++ [TodoistGet] → todoist_api E = Exc e →
          text = "Error getting tasks: " +:+ exn_str e) ∧
    (∀ p e, calls w' = calls w ++ [GeminiGenerate p] → gemini_api E p = Exc e →
            text = "Sorry, I encountered an error: " +:+ exn_str e).
Proof.
  intros Hcs.
  destruct (respond_outcome E w u Hcs) as (b & text & w' & _ & Hrun & Hout).
  exists text, w'. split; [done|].
  destruct b; cbn in Hout.
  - destruct Hout as (k & _ & _ & ->). cbn.
    repeat split; try done; intros; by edestruct calls_not_grown.
  - destruct Hout as (t & _ & _ & ->). cbn.
    repeat split; try done; intros; by edestruct calls_not_grown.
  - destruct Hout as (t & _ & _ & ->). cbn.
    repeat split; try done; intros; by edestruct calls_not_grown.
  - destruct Hout as (k & _ & _ & ->). cbn.
    repeat split; try done; intros; by edestruct calls_not_grown.
  - destruct Hout as (stored & _ & Hget & ->). cbn.
    repeat split; try done.
    + intros q e [= <-]%app_inv_head He.
      rewrite (get_weather_raised _ _ _ e He) in Hget. by injection Hget as <-.
    + by intros e [=]%app_inv_head.
    + by intros p e [=]%app_inv_head.
  - destruct Hout as (Hget & ->). cbn.
    repeat split; try done.
    + by intros q e [=]%app_inv_head.
    + intros e _ He.
      rewrite (get_tasks_raised _ _ e He) in Hget. by injection Hget as <-.
    + by intros p e [=]%app_inv_head.
  - destruct Hout as (name & stored & _ & _ & _ & ->).
    repeat split; try done; intros; by edestruct calls_not_grown.
  - destruct Hout as (_ & ->).
    repeat split; try done; intros; by edestruct calls_not_grown.
  - destruct Hout as (-> & ->). cbn.
    repeat split; try done.
    + by intros q e [=]%app_inv_head.
    + by intros e [=]%app_inv_head.
    + intros p e [= <-]%app_inv_head He. by rewrite He.
Qed.

Lemma respond_never_raises_witness :
  conversation_state (sess settled_world) ∧
  ∃ text w',
    generate_response sample_env "tell me a joke" settled_world = (Val text, w') ∧
    (calls w' ≠ calls settled_world → sess w' = sess settled_world) ∧
    (∀ q e, calls w' = calls settled_world ++ [WeatherGet q] →
            weather_api sample_env q = Exc e →
            text = "Error getting weather: " +:+ exn_str e) ∧
    (∀ e, calls w' = calls settled_world ++ [TodoistGet] →
          todoist_api sample_env = Exc e →
          text = "Error getting tasks: " +:+ exn_str e) ∧
    (∀ p e, calls w' = calls settled_world ++ [GeminiGenerate p] →
            gemini_api sample_env p = Exc e →
            text = "Sorry, I encountered an error: " +:+ exn_str e).
Proof.
  split; [exact settled_conversation_state|].
  apply (respond_never_raises sample_env settled_world "tell me a joke").
  exact settled_conversation_state.
Defined.

Example model_failure_is_reported :
  generate_response sample_env "tell me a joke" settled_world
  = (Val "Sorry, I encountered an error: quota exceeded",
     logged (GeminiGenerate "tell me a joke") settled_world).
Proof. vm_compute. reflexivity. Qed.

(** Outside the data model the router can raise: a cursor that names no
    field leaves the local variable [response] unbound. *)
Example stray_cursor_raises :
  ∃ e,
    (generate_response sample_env "hello"
       (with_prefs (user_prefs settled_session) (Some "hours") settled_world)).1
    = Exc e ∧ exn_cls e = UnboundLocalError.
Proof. eexists. split; vm_compute; reflexivity. Qed.

(** C5. When the task provider answers with a list, the lookup keeps,
    of its first five entries, those that are records with a "content"
    field and skips the others; it returns the "no valid tasks" text when
    none is kept, and otherwise a header line and one bullet for each
    kept task, in order.  The list of "Buy milk", "Call Bob" and a record
    without content gives the two bullets, the empty list the "no valid
    tasks" text. *)
Theorem task_lookup_list (E : env) (w : world) (tasks : list json) :
  todoist_api E = Val {| status_code := 200; json_body := Val (JList tasks) |} →
  get_tasks E w = (Val (task_summary tasks), logged TodoistGet w) ∧
  (length (kept_tasks tasks) ≤ 5)%nat ∧
  (∀ t, t ∈ kept_tasks tasks ↔
        t ∈ take 5 tasks ∧
        ∃ d c, t = JDict d ∧ dict_lookup "content" d = Some c) ∧
  (kept_tasks tasks = [] →
   task_summary tasks = "No valid tasks found in your Todoist!") ∧
  (kept_tasks tasks ≠ [] →
   task_summary tasks =
     "Here are your upcoming tasks:" +:+ nl +:+
     join nl (map bullet (kept_tasks tasks))) ∧
  (tasks = three_tasks →
   task_summary tasks =
     "Here are your upcoming tasks:" +:+ nl +:+ "- Buy milk" +:+ nl +:+
     "- Call Bob") ∧
  (tasks = [] → task_summary tasks = "No valid tasks found in your Todoist!").
Proof.
  intros HE. split; [by apply get_tasks_list|].
  split; [apply kept_tasks_length|]. split; [apply kept_tasks_elem|].
  unfold task_summary. repeat split.
  - by intros ->.
  - by destruct (kept_tasks tasks).
  - by intros ->.
  - by intros ->.
Qed.

Lemma task_lookup_list_witness :
  todoist_api sample_env
    = Val {| status_code := 200; json_body := Val (JList three_tasks) |} ∧
  get_tasks sample_env settled_world
    = (Val ("Here are your upcoming tasks:" +:+ nl +:+ "- Buy milk" +:+ nl +:+
            "- Call Bob"),
       logged TodoistGet settled_world).
Proof.
  split; [reflexivity|].
  apply (task_lookup_list sample_env settled_world three_tasks). reflexivity.
Defined.

(** C6. Once no question is pending, "my name is Alex" stores the name
    "alex": the manual assertion stores the lowercased text that follows
    the first "my name is", up to the next "my name is" if there is one,
    with the surrounding whitespace trimmed, and answers with the
    acknowledgment. *)
Theorem manual_name_assertion (E : env) (w : world) :
  awaiting_preference (sess w) = None →
  generate_response E "my name is Alex" w
    = (Val acknowledgment,
       with_prefs (<["name" := Some "alex"]> (user_prefs (sess w))) None w) ∧
  ∀ u t,
    text_after "my name is" (lower u) = Some t →
    generate_response E u w
    = (Val acknowledgment,
       with_prefs (<["name" := Some (strip t)]> (user_prefs (sess w))) None w).
Proof.
  intros Haw.
  assert (∀ u t,
    text_after "my name is" (lower u) = Some t →
    generate_response E u w
    = (Val acknowledgment,
       with_prefs (<["name" := Some (strip t)]> (user_prefs (sess w))) None w))
    as Hgen.
  { intros u t Ht.
    unfold generate_response, bind at 1, get_session at 1. cbn [fst snd].
    rewrite Haw.
    assert (contains "my name is" (lower u) = true) as ->.
    { rewrite contains_find. apply bool_decide_eq_true_2.
      unfold text_after in Ht. destruct (find_str _ _); [eauto|done]. }
    by apply run_manual. }
  split; [|exact Hgen]. by apply (Hgen "my name is Alex" " alex").
Qed.

Lemma manual_name_assertion_witness :
  awaiting_preference (sess settled_world) = None ∧
  generate_response sample_env "my name is Alex" settled_world
    = (Val acknowledgment,
       with_prefs (<["name" := Some "alex"]> (user_prefs (sess settled_world)))
         None settled_world).
Proof.
  split; [reflexivity|].
  apply (manual_name_assertion sample_env settled_world). reflexivity.
Defined.

(** C7. With a question pending, the router stores the utterance as it
    is in the field the cursor names, moves the cursor to the next unset
    field, or removes it when none is left, and answers with the
    acknowledgment, followed by the next question when there is one. *)
Theorem pending_answer_stored (E : env) (w : world) (u k : string) :
  conversation_state (sess w) →
  awaiting_preference (sess w) = Some k →
  let prefs' := <[k := Some u]> (user_prefs (sess w)) in
  generate_response E u w
    = (Val match question_of prefs' (next_unset prefs') with
           | Some q => acknowledgment +:+ nl +:+ nl +:+ q
           | None => acknowledgment
           end,
       with_prefs prefs' (next_unset prefs') w) ∧
  prefs' !! k = Some (Some u) ∧
  (∀ k', k' ≠ k → prefs' !! k' = user_prefs (sess w) !! k') ∧
  match next_unset prefs' with
  | Some k' => unset prefs' k' ∧ (k' = "name" ∨ ¬ unset prefs' "name")
  | None => is_set prefs' "name" ∧ is_set prefs' "location"
  end.
Proof.
  intros Hcs Hk prefs'.
  destruct (dispatch_refines E w u Hcs) as (b & Hb & Hrun).
  rewrite first_match_cases, Hk in Hb. cbn in Hb. injection Hb as <-.
  rewrite Hrun. split; [by apply run_pending|].
  split; [apply lookup_insert_eq|].
  split; [by intros k' Hne; apply lookup_insert_ne|].
  destruct (pending_invariant w k u Hcs) as [(Hn & Hl & _) _]. cbn in Hn, Hl.
  fold prefs' in Hn, Hl.
  destruct (next_unset prefs') as [k'|] eqn:Hnext.
  - apply next_unset_Some in Hnext as [[-> Hu] | (-> & Hu & Hnn)]; auto.
  - by apply next_unset_None.
Qed.

Lemma pending_answer_stored_witness :
  conversation_state (sess fresh_world) ∧
  awaiting_preference (sess fresh_world) = Some "name" ∧
  generate_response sample_env "Alex" fresh_world
    = (Val (acknowledgment +:+ nl +:+ nl +:+
            "Thanks Alex! Where are you located? (This helps with weather reports)"),
       with_prefs (<["name" := Some "Alex"]> (user_prefs (sess fresh_world)))
         (Some "location") fresh_world).
Proof.
  split; [apply fresh_invariant|]. split; [reflexivity|].
  apply (pending_answer_stored sample_env fresh_world "Alex" "name");
    [apply fresh_invariant | reflexivity].
Defined.

Lemma weather_summary_contains location text temp_c temp_f humidity
    wind_kph wind_mph uv :
  Forall (fun piece =>
            contains piece
              (weather_summary location text temp_c temp_f humidity wind_kph
                 wind_mph uv) = true)
    [py_str text; py_str temp_c; py_str temp_f; py_str humidity;
     py_str wind_kph; py_str wind_mph; py_str uv].
Proof.
  unfold weather_summary, join. cbn [String.concat].
  rewrite !append_assoc_str.
  repeat constructor;
    repeat first [apply contains_here | apply contains_self
                 | apply contains_app_r].
Qed.

(** C8. For a payload without an error entry whose "current" record has
    the condition text, the two temperatures, the humidity and the two
    wind speeds, the weather lookup returns the summary of six lines,
    which contains the condition text, the temperature in Celsius and in
    Fahrenheit, the humidity, the wind speed in km/h and in mph, and the
    UV index, or "N/A" in its place when the payload has no "uv".  For
    the payload Sunny, 25, 77, 40, 10, 6.2, 5 the summary contains each of
    these.  For a payload with an error entry the lookup returns a text
    with the provider's message in it. *)
Theorem weather_lookup_report (E : env) (location : option string) (w : world) :
  (∀ d current condition text temp_c temp_f humidity wind_kph wind_mph,
     weather_api E location = Val (JDict d) →
     dict_lookup "error" d = None →
     dict_lookup "current" d = Some (JDict current) →
     dict_lookup "condition" current = Some (JDict condition) →
     dict_lookup "text" condition = Some text →
     dict_lookup "temp_c" current = Some temp_c →
     dict_lookup "temp_f" current = Some temp_f →
     dict_lookup "humidity" current = Some humidity →
     dict_lookup "wind_kph" current = Some wind_kph →
     dict_lookup "wind_mph" current = Some wind_mph →
     let uv := default (JStr "N/A") (dict_lookup "uv" current) in
     let summary :=
       weather_summary location text temp_c temp_f humidity wind_kph
         wind_mph uv in
     get_weather E location w = (Val summary, logged (WeatherGet location) w) ∧
     Forall (fun piece => contains piece summary = true)
       [py_str text; py_str temp_c; py_str temp_f; py_str humidity;
        py_str wind_kph; py_str wind_mph; py_str uv] ∧
     (dict_lookup "uv" current = None → py_str uv = "N/A")) ∧
  (weather_api E location = Val sunny_payload →
   ∃ text,
     get_weather E location w = (Val text, logged (WeatherGet location) w) ∧
     Forall (fun piece => contains piece text = true)
       ["Sunny"; "25"; "77"; "40"; "10"; "6.2"; "5"]) ∧
  (∀ d error detail,
     weather_api E location = Val (JDict d) →
     dict_lookup "error" d = Some (JDict error) →
     dict_lookup "message" error = Some detail →
     get_weather E location w
     = (Val ("Could not get weather: " +:+ py_str detail),
        logged (WeatherGet location) w)).
Proof.
  assert (∀ d current condition text temp_c temp_f humidity wind_kph wind_mph,
     weather_api E location = Val (JDict d) →
     dict_lookup "error" d = None →
     dict_lookup "current" d = Some (JDict current) →
     dict_lookup "condition" current = Some (JDict condition) →
     dict_lookup "text" condition = Some text →
     dict_lookup "temp_c" current = Some temp_c →
     dict_lookup "temp_f" current = Some temp_f →
     dict_lookup "humidity" current = Some humidity →
     dict_lookup "wind_kph" current = Some wind_kph →
     dict_lookup "wind_mph" current = Some wind_mph →
     get_weather E location w
     = (Val (weather_summary location text temp_c temp_f humidity wind_kph
               wind_mph (default (JStr "N/A") (dict_lookup "uv" current))),
        logged (WeatherGet location) w)) as Hok.
  { intros d current condition text temp_c temp_f humidity wind_kph wind_mph
      HE Herr Hcur Hcond Htext Hc Hf Hh Hk Hm.
    unfold get_weather, try_except, request_weather, bind, perform, lift.
    cbn. rewrite HE. cbn. rewrite Herr.
    rewrite bool_decide_eq_false_2 by (intros [? ?]; done).
    rewrite Hcur. cbn. rewrite Hcond. cbn. rewrite Htext, Hc, Hf, Hh, Hk, Hm.
    unfold ret, weather_summary, join. cbn [String.concat].
    rewrite !append_assoc_str. reflexivity. }
  split; [|split].
  - intros d current condition text temp_c temp_f humidity wind_kph wind_mph
      HE Herr Hcur Hcond Htext Hc Hf Hh Hk Hm uv summary.
    split; [by eapply Hok|]. split; [apply weather_summary_contains|].
    subst uv. by intros ->.
  - intros HE. eexists. split.
    + apply (Hok _ sunny_current [("text", JStr "Sunny")] (JStr "Sunny")
               (JInt 25) (JInt 77) (JInt 40) (JInt 10) (JFloat "6.2") HE);
        reflexivity.
    + apply (weather_summary_contains location (JStr "Sunny") (JInt 25)
               (JInt 77) (JInt 40) (JInt 10) (JFloat "6.2") (JInt 5)).
  - intros d error detail HE Herr Hmsg.
    unfold get_weather, try_except, request_weather, bind, perform, lift.
    cbn. rewrite HE. cbn. rewrite Herr.
    rewrite bool_decide_eq_true_2 by eauto. cbn. rewrite Hmsg. reflexivity.
Qed.

Lemma weather_lookup_report_witness :
  weather_api sample_env (Some "Colombo") = Val sunny_payload ∧
  ∃ text,
    get_weather sample_env (Some "Colombo") settled_world
      = (Val text, logged (WeatherGet (Some "Colombo")) settled_world) ∧
    Forall (fun piece => contains piece text = true)
      ["Sunny"; "25"; "77"; "40"; "10"; "6.2"; "5"].
Proof.
  split; [reflexivity|].
  apply (weather_lookup_report sample_env (Some "Colombo") settled_world).
  reflexivity.
Defined.

(** In any conversation state, reachable or not, the router changes the
    preferences only in the pending-preference branch and in the manual
    assertion; the weather, tasks, who am i and help branches and the
    generative fallback leave the session as it was, and the
    incomplete-preferences guard, when it has a question to ask, leaves
    the preferences as they were and puts the cursor on the field it
    asks for. *)
Lemma respond_frame_any_state (E : env) (w : world) (u : string) :
  conversation_state (sess w) →
  ∃ b text w',
    first_match (sess w) u = Some b ∧
    generate_response E u w = (Val text, w') ∧
    match b with
    | PendingPreference | ManualName | ManualLocation => True
    | IncompleteGuard =>
        user_prefs (sess w') = user_prefs (sess w) ∧
        messages (sess w') = messages (sess w) ∧
        awaiting_preference (sess w') = next_unset (user_prefs (sess w)) ∧
        ((awaiting_preference (sess w') = Some "name" ∧
          unset (user_prefs (sess w)) "name") ∨
         (awaiting_preference (sess w') = Some "location" ∧
          ¬ unset (user_prefs (sess w)) "name" ∧
          unset (user_prefs (sess w)) "location"))
    | Weather | Tasks | WhoAmI | Help | Fallback => sess w' = sess w
    end.
Proof.
  intros Hcs.
  destruct (respond_outcome E w u Hcs) as (b & text & w' & Hb & Hrun & Hout).
  exists b, text, w'. split; [done|]. split; [done|].
  destruct b; cbn in Hout; try done.
  - destruct Hout as (k & Hk & _ & ->). cbn. rewrite Hk.
    split; [done|]. split; [done|]. split; [done|].
    apply next_unset_Some in Hk as [[-> Hu] | (-> & Hu & Hnn)]; auto.
  - by destruct Hout as (stored & _ & _ & ->).
  - by destruct Hout as (_ & ->).
  - by destruct Hout as (name & stored & _ & _ & _ & ->).
  - by destruct Hout as (_ & ->).
  - by destruct Hout as (_ & ->).
Qed.

(** C9. In every state the host can reach, and for every utterance, the
    router changes the preferences and the cursor only in the
    pending-preference branch and in the manual assertion.  The
    incomplete-preferences guard (line 167), which is reached with no
    cursor, finds both preferences set there: it returns no question and
    leaves the state as it was.  The weather, tasks, who am i and help
    branches and the generative fallback leave the preferences and the
    cursor exactly as they were. *)
Theorem router_frame_reachable (E : env) (w : world) (u : string) :
  reachable w →
  (awaiting_preference (sess w) = None →
   ask_preference_questions w = (Val None, w)) ∧
  ∃ b text w',
    first_match (sess w) u = Some b ∧
    generate_response E u w = (Val text, w') ∧
    match b with
    | PendingPreference | ManualName | ManualLocation => True
    | IncompleteGuard | Weather | Tasks | WhoAmI | Help | Fallback =>
        user_prefs (sess w') = user_prefs (sess w) ∧
        awaiting_preference (sess w') = awaiting_preference (sess w)
    end.
Proof.
  intros Hr. destruct (reachable_invariant w Hr) as [Hcs Hc]. split.
  - intros Haw. destruct Hcs as (Hn & Hl & _).
    rewrite (ask_preference_questions_run w Hn Hl).
    destruct Hc as [[? _] | [[? _] | (_ & [n Hn'] & [l Hl'])]]; [congruence..|].
    unfold after_ask, next_unset. by rewrite Hn', Hl'.
  - destruct (respond_outcome E w u Hcs) as (b & text & w' & Hb & Hrun & _).
    exists b, text, w'. split; [done|]. split; [done|].
    assert (b ∉ [PendingPreference; ManualName; ManualLocation] →
            sess w' = sess w) as Hframe.
    { intros Hnot. exact (respond_frame_reachable E w u b _ w' Hr Hb Hnot Hrun). }
    destruct b; try done; rewrite Hframe; try done;
      rewrite !elem_of_cons, elem_of_nil; intros [?|[?|[?|[]]]]; discriminate.
Qed.

Lemma router_frame_reachable_witness :
  reachable onboarded_world ∧
  (awaiting_preference (sess onboarded_world) = None →
   ask_preference_questions onboarded_world = (Val None, onboarded_world)) ∧
  ∃ b text w',
    first_match (sess onboarded_world) "weather" = Some b ∧
    generate_response sample_env "weather" onboarded_world = (Val text, w') ∧
    match b with
    | PendingPreference | ManualName | ManualLocation => True
    | IncompleteGuard | Weather | Tasks | WhoAmI | Help | Fallback =>
        user_prefs (sess w') = user_prefs (sess onboarded_world) ∧
        awaiting_preference (sess w') = awaiting_preference (sess onboarded_world)
    end.
Proof.
  split; [exact onboarded_reachable|].
  exact (router_frame_reachable sample_env onboarded_world "weather"
           onboarded_reachable).
Defined.

(** After the two answers "weather" runs the weather branch: the
    provider is called and the session is as it was. *)
Example weather_leaves_session :
  first_match (sess onboarded_world) "weather" = Some Weather ∧
  sess (generate_response sample_env "weather" onboarded_world).2
  = sess onboarded_world ∧
  calls (generate_response sample_env "weather" onboarded_world).2
  = [WeatherGet (Some "Colombo")].
Proof. repeat split; vm_compute; reflexivity. Qed.

(** Outside the reachable states, with both preferences unset and no
    cursor, the guard has a question to ask and puts the cursor on the
    name. *)
Example guard_asks_when_unset :
  first_match blank_session "hello" = Some IncompleteGuard ∧
  awaiting_preference (sess (generate_response sample_env "hello" blank_world).2)
    = Some "name".
Proof. split; vm_compute; reflexivity. Qed.

(** C10. In a reachable state the key "location" is always in the
    preference record, so the weather quick action looks the weather up
    for the value stored there and never for the default "Colombo"; when
    the location is unset that value is [None]. *)
Theorem quick_action_weather_location (E : env) (w : world) :
  reachable w →
  ∃ v,
    user_prefs (sess w) !! "location" = Some v ∧
    handle_quick_action E "weather" w = get_weather E v w ∧
    (unset (user_prefs (sess w)) "location" →
     v = None ∧
     ∃ text, handle_quick_action E "weather" w
             = (Val text, logged (WeatherGet None) w)).
Proof.
  intros Hr. destruct (reachable_invariant w Hr) as [(_ & [v Hv] & _) _].
  exists v. split; [done|].
  assert (handle_quick_action E "weather" w = get_weather E v w) as Heq.
  { unfold handle_quick_action. cbn. unfold bind, prefs_get, get_session.
    cbn. by rewrite Hv. }
  split; [done|]. unfold unset. rewrite Hv. intros [= ->]. split; [done|].
  rewrite Heq. apply get_weather_returns.
Qed.

Lemma quick_action_weather_location_witness :
  reachable fresh_world ∧
  ∃ v,
    user_prefs (sess fresh_world) !! "location" = Some v ∧
    handle_quick_action sample_env "weather" fresh_world
      = get_weather sample_env v fresh_world ∧
    (unset (user_prefs (sess fresh_world)) "location" →
     v = None ∧
     ∃ text, handle_quick_action sample_env "weather" fresh_world
             = (Val text, logged (WeatherGet None) fresh_world)).
Proof.
  split; [apply rtc_refl|].
  apply (quick_action_weather_location sample_env fresh_world). apply rtc_refl.
Defined.

(** * Further properties *)

(** ** The lookups *)

(** X1. The weather lookup never raises: whatever the provider does, it
    returns a text, after exactly one request, for the location it was
    given, and it leaves the session as it was. *)
Theorem weather_lookup_always_answers (E : env) (location : option string)
    (w : world) :
  ∃ text,
    get_weather E location w = (Val text, logged (WeatherGet location) w) ∧
    sess (logged (WeatherGet location) w) = sess w ∧
    calls (logged (WeatherGet location) w) = calls w ++ [WeatherGet location].
Proof.
  destruct (get_weather_returns E location w) as [text Ht].
  exists text. done.
Qed.

(** X2. A weather payload of the wrong shape is reported, not raised:
    a failed request gives its error text; a record with neither "error"
    nor "current" gives the text of the [KeyError] for "current"; an
    error record without "message" that of the [KeyError] for
    "message"; a payload that is [null], a truth value or a number gives
    the text of the [TypeError] of the membership test. *)
Theorem weather_lookup_malformed (E : env) (location : option string)
    (w : world) :
  (∀ e, weather_api E location = Exc e →
        (get_weather E location w).1
        = Val ("Error getting weather: " +:+ exn_str e)) ∧
  (∀ d, weather_api E location = Val (JDict d) →
        dict_lookup "error" d = None → dict_lookup "current" d = None →
        (get_weather E location w).1
        = Val "Error getting weather: 'current'") ∧
  (∀ d error, weather_api E location = Val (JDict d) →
        dict_lookup "error" d = Some (JDict error) →
        dict_lookup "message" error = None →
        (get_weather E location w).1
        = Val "Error getting weather: 'message'") ∧
  (∀ v, weather_api E location = Val v →
        match v with JNull | JBool _ | JInt _ | JFloat _ => True | _ => False end →
        (get_weather E location w).1
        = Val ("Error getting weather: argument of type '" +:+ type_name v +:+
               "' is not iterable")).
Proof.
  unfold get_weather, try_except, request_weather, bind, perform, lift. cbn.
  repeat split.
  - by intros e ->.
  - intros d -> Herr Hcur. cbn. rewrite Herr.
    rewrite bool_decide_eq_false_2 by (intros [? ?]; done). by rewrite Hcur.
  - intros d error -> Herr Hmsg. cbn. rewrite Herr.
    rewrite bool_decide_eq_true_2 by eauto. cbn. by rewrite Hmsg.
  - intros v -> Hv. by destruct v.
Qed.

Lemma weather_lookup_malformed_witness :
  weather_api teapot_env (Some "Colombo") = Val JNull ∧
  (get_weather teapot_env (Some "Colombo") settled_world).1
  = Val "Error getting weather: argument of type 'NoneType' is not iterable".
Proof.
  split; [reflexivity|].
  apply (proj2 (proj2 (proj2 (weather_lookup_malformed teapot_env
                                (Some "Colombo") settled_world))) JNull);
    [reflexivity | exact I].
Defined.

(** X3. When the task provider answers with a status other than 200,
    the task lookup reports that status and does not read the body: the
    text is the same whatever the body holds. *)
Theorem task_lookup_bad_status (E : env) (w : world) (code : Z)
    (body : res json) :
  todoist_api E = Val {| status_code := code; json_body := body |} →
  code ≠ 200 →
  get_tasks E w
  = (Val ("Todoist API error: Status " +:+ pretty code), logged TodoistGet w).
Proof.
  intros HE Hcode.
  unfold get_tasks, try_except, request_tasks, bind, perform, lift. cbn.
  rewrite HE. cbn. destruct (code =? 200) eqn:Hc; [|reflexivity].
  apply Z.eqb_eq in Hc. done.
Qed.


Lemma task_lookup_bad_status_witness :
  get_tasks teapot_env settled_world
  = (Val "Todoist API error: Status 418", logged TodoistGet settled_world).
Proof.
  apply (task_lookup_bad_status teapot_env settled_world 418
           (Exc (Exn ValueError "no JSON"))); [reflexivity | lia].
Defined.

(** X4. With status 200, a body that is no JSON (a [ValueError]) gives
    the invalid-format text, any other failure of the decoding gives the
    generic task error with its text, and a JSON value that is no list
    gives the unexpected-format text. *)
Theorem task_lookup_bad_body (E : env) (w : world) (body : res json) :
  todoist_api E = Val {| status_code := 200; json_body := body |} →
  (get_tasks E w).2 = logged TodoistGet w ∧
  (∀ e, body = Exc e → is_ValueError e = true →
        (get_tasks E w).1 = Val "Invalid response format from Todoist") ∧
  (∀ e, body = Exc e → is_ValueError e = false →
        (get_tasks E w).1 = Val ("Error getting tasks: " +:+ exn_str e)) ∧
  (∀ v, body = Val v → (∀ tasks, v ≠ JList tasks) →
        (get_tasks E w).1 = Val "Unexpected response format from Todoist").
Proof.
  intros HE. split.
  - by destruct (get_tasks_returns E w) as [text ->].
  - unfold get_tasks, try_except, request_tasks, bind, perform, lift. cbn.
    rewrite HE. cbn. repeat split.
    + intros e -> He. cbn. by rewrite He.
    + intros e -> He. cbn. by rewrite He.
    + intros v -> Hv. cbn. destruct v; try reflexivity. by destruct (Hv l).
Qed.


Lemma task_lookup_bad_body_witness :
  (get_tasks garbled_env settled_world).1
  = Val "Invalid response format from Todoist".
Proof.
  apply (proj1 (proj2 (task_lookup_bad_body garbled_env settled_world
                          (Exc (Exn ValueError "no JSON")) eq_refl))
           (Exn ValueError "no JSON")); reflexivity.
Defined.

(** X5. The task lookup never raises: whatever the provider does, it
    returns a text after exactly one request and leaves the session as it
    was; a failed request gives the generic task error with its text. *)
Theorem task_lookup_always_answers (E : env) (w : world) :
  ∃ text,
    get_tasks E w = (Val text, logged TodoistGet w) ∧
    sess (logged TodoistGet w) = sess w ∧
    calls (logged TodoistGet w) = calls w ++ [TodoistGet] ∧
    (∀ e, todoist_api E = Exc e →
          text = "Error getting tasks: " +:+ exn_str e).
Proof.
  destruct (get_tasks_returns E w) as [text Ht].
  exists text. repeat split; try done.
  intros e He. rewrite (get_tasks_raised E w e He) in Ht. by injection Ht as <-.
Qed.

Lemma kept_tasks_none tasks :
  Forall (fun task => is_task_record task = false) tasks →
  kept_tasks tasks = [].
Proof.
  intros Hall. unfold kept_tasks. apply (Forall_take _ 5%nat) in Hall.
  induction Hall as [|task rest Htask _ IH]; [done|].
  rewrite filter_cons_False; [done|]. by rewrite Htask.
Qed.

Lemma kept_tasks_app tasks more :
  (5 ≤ length tasks)%nat → kept_tasks (tasks ++ more) = kept_tasks tasks.
Proof.
  intros Hlen. unfold kept_tasks. by rewrite take_app_le.
Qed.

(** X6. Only the first five entries of the task list count: what
    follows them changes nothing, so a list whose first five entries are
    all skipped gives the "no valid tasks" text even when a later entry
    is a task. *)
Theorem task_lookup_first_five (E E' : env) (w : world)
    (tasks more : list json) :
  (5 ≤ length tasks)%nat →
  todoist_api E
    = Val {| status_code := 200; json_body := Val (JList tasks) |} →
  todoist_api E'
    = Val {| status_code := 200; json_body := Val (JList (tasks ++ more)) |} →
  get_tasks E' w = get_tasks E w ∧
  (Forall (fun task => is_task_record task = false) tasks →
   (get_tasks E' w).1 = Val "No valid tasks found in your Todoist!").
Proof.
  intros Hlen HE HE'.
  rewrite (get_tasks_list E' w _ HE'), (get_tasks_list E w _ HE).
  unfold task_summary. rewrite kept_tasks_app by done. split; [done|].
  intros Hall. cbn. by rewrite kept_tasks_none.
Qed.



Lemma task_lookup_first_five_witness :
  (5 ≤ length five_blanks)%nat ∧
  (get_tasks
     (late_task_env (five_blanks ++ [JDict [("content", JStr "Buy milk")]]))
     settled_world).1
  = Val "No valid tasks found in your Todoist!".
Proof.
  split; [cbn; lia|].
  apply (task_lookup_first_five (late_task_env five_blanks)
           (late_task_env (five_blanks ++ [JDict [("content", JStr "Buy milk")]]))
           settled_world five_blanks [JDict [("content", JStr "Buy milk")]]);
    [cbn; lia | reflexivity | reflexivity | by repeat constructor].
Defined.

(** ** The preference store *)

(** X7. [update_preferences] never fails and always removes the
    cursor, whoever calls it; afterwards each updated field holds its new
    value and every other field the value it had; the history and the log
    of calls are untouched; and updating twice with the same values is
    updating once. *)
Theorem update_preferences_effect (updates : gmap string (option string))
    (w : world) :
  ∃ w',
    update_preferences updates w = (Val acknowledgment, w') ∧
    awaiting_preference (sess w') = None ∧
    (∀ k v, updates !! k = Some v → user_prefs (sess w') !! k = Some v) ∧
    (∀ k, updates !! k = None →
          user_prefs (sess w') !! k = user_prefs (sess w) !! k) ∧
    messages (sess w') = messages (sess w) ∧
    calls w' = calls w ∧
    update_preferences updates w' = (Val acknowledgment, w').
Proof.
  eexists. split; [reflexivity|]. cbn. repeat split.
  - intros k v Hk. by apply lookup_union_Some_l.
  - intros k Hk. by apply lookup_union_r.
  - unfold update_preferences, bind, modify_session, ret. cbn.
    by rewrite (assoc_L (∪)), (idemp_L (∪)).
Qed.

(** X8. In a conversation state [ask_preference_questions] returns no
    question exactly when both preferences are set, and otherwise the
    question of the first unset field, to which it moves the cursor; it
    changes neither the preferences, the history nor the log of calls,
    and asking again gives the same question and the same state. *)
Theorem ask_preference_questions_effect (w : world) :
  conversation_state (sess w) →
  ∃ question w',
    ask_preference_questions w = (Val question, w') ∧
    (question = None ↔
     is_set (user_prefs (sess w)) "name" ∧
     is_set (user_prefs (sess w)) "location") ∧
    (question = None → w' = w) ∧
    (question ≠ None →
     awaiting_preference (sess w') = next_unset (user_prefs (sess w)) ∧
     question = question_of (user_prefs (sess w))
                  (next_unset (user_prefs (sess w)))) ∧
    user_prefs (sess w') = user_prefs (sess w) ∧
    messages (sess w') = messages (sess w) ∧
    calls w' = calls w ∧
    ask_preference_questions w' = (Val question, w').
Proof.
  intros (Hn & Hl & _).
  rewrite ask_preference_questions_run by done.
  eexists _, _. split; [reflexivity|].
  unfold after_ask.
  destruct (next_unset (user_prefs (sess w))) as [k|] eqn:Hk.
  - assert (question_of (user_prefs (sess w)) (Some k) ≠ None) as Hq.
    { unfold question_of. by destruct (String.eqb k "name"). }
    cbn [with_prefs sess user_prefs messages calls awaiting_preference].
    repeat split; try done.
    + intros [(n & Hn') (l & Hl')]. unfold next_unset in Hk.
      by rewrite Hn', Hl' in Hk.
    + rewrite ask_preference_questions_run by done.
      unfold after_ask. cbn. by rewrite Hk.
  - repeat split; try done.
    + by destruct (next_unset_None _ Hn Hl Hk).
    + by destruct (next_unset_None _ Hn Hl Hk).
    + rewrite ask_preference_questions_run by done.
      unfold after_ask. by rewrite Hk.
Qed.

Lemma ask_preference_questions_effect_witness :
  conversation_state (sess blank_world) ∧
  ∃ question w',
    ask_preference_questions blank_world = (Val question, w') ∧
    question = Some name_question ∧
    awaiting_preference (sess w') = Some "name".
Proof.
  split; [exact blank_conversation_state|].
  destruct (ask_preference_questions_effect blank_world
              blank_conversation_state)
    as (question & w' & Hrun & _ & _ & Hq & _).
  exists question, w'. split; [exact Hrun|].
  assert (question ≠ None) as Hne.
  { intros ->. vm_compute in Hrun. discriminate. }
  destruct (Hq Hne) as [Haw ->]. split; [reflexivity | exact Haw].
Defined.

(** X9. On a preference record that lacks a key,
    [ask_preference_questions] raises the [KeyError] of that key and
    changes nothing: of "name" when it is missing, of "location" when
    the name is set and "location" is missing. *)
Theorem ask_preference_questions_missing_key (w : world) :
  (user_prefs (sess w) !! "name" = None →
   ask_preference_questions w = (Exc (Exn KeyError "'name'"), w)) ∧
  (is_set (user_prefs (sess w)) "name" →
   user_prefs (sess w) !! "location" = None →
   ask_preference_questions w = (Exc (Exn KeyError "'location'"), w)).
Proof.
  unfold ask_preference_questions, prefs_getitem, bind, get_session. cbn.
  split.
  - by intros ->.
  - intros [n Hn] Hl. rewrite Hn. cbn. by rewrite Hl.
Qed.

Lemma ask_preference_questions_missing_key_witness :
  is_set (user_prefs (sess nameonly_world)) "name" ∧
  user_prefs (sess nameonly_world) !! "location" = None ∧
  ask_preference_questions nameonly_world
  = (Exc (Exn KeyError "'location'"), nameonly_world).
Proof.
  split; [by eexists|]. split; [reflexivity|].
  apply (proj2 (ask_preference_questions_missing_key nameonly_world));
    [by eexists | reflexivity].
Defined.

(** ** Lowercased and trimmed text *)

Lemma lower_char_idem c : lower_char (lower_char c) = lower_char c.
Proof. destruct c as [[] [] [] [] [] [] [] []]; vm_compute; reflexivity. Qed.

Lemma isspace_lower_char c : isspace (lower_char c) = isspace c.
Proof. destruct c as [[] [] [] [] [] [] [] []]; vm_compute; reflexivity. Qed.

Lemma lower_idem s : lower (lower s) = lower s.
Proof.
  induction s as [|c s IH]; [done|]. cbn. by rewrite lower_char_idem, IH.
Qed.

Lemma lower_app a b : lower (a +:+ b) = lower a +:+ lower b.
Proof.
  induction a as [|c a IH]; [done|].
  change (String (lower_char c) (lower (a +:+ b))
          = String (lower_char c) (lower a +:+ lower b)).
  by rewrite IH.
Qed.

Lemma lower_lstrip s : lower (lstrip s) = lstrip (lower s).
Proof.
  induction s as [|c s IH]; [done|]. cbn [lstrip lower].
  rewrite isspace_lower_char. by destruct (isspace c).
Qed.

Lemma lower_rstrip s : lower (rstrip s) = rstrip (lower s).
Proof.
  induction s as [|c s IH]; [done|]. cbn [rstrip lower].
  rewrite <- IH, isspace_lower_char.
  destruct (rstrip s); [by destruct (isspace c)|done].
Qed.

Lemma lower_strip s : lower (strip s) = strip (lower s).
Proof. unfold strip. by rewrite lower_rstrip, lower_lstrip. Qed.

Lemma lower_take_str n s : lower (take_str n s) = take_str n (lower s).
Proof.
  revert s; induction n as [|n IH]; intros [|c s]; try done.
  cbn. by rewrite IH.
Qed.

Lemma lower_drop_str n s : lower (drop_str n s) = drop_str n (lower s).
Proof. revert s; induction n as [|n IH]; intros [|c s]; try done. apply IH. Qed.


Lemma lstrip_left_trimmed s : left_trimmed (lstrip s).
Proof.
  induction s as [|c s IH]; [done|]. cbn.
  destruct (isspace c) eqn:Hc; [exact IH | exact Hc].
Qed.

Lemma lstrip_fixed s : left_trimmed s → lstrip s = s.
Proof. destruct s as [|c s]; [done|]. cbn. by intros ->. Qed.

Lemma rstrip_left_trimmed s : left_trimmed s → left_trimmed (rstrip s).
Proof.
  destruct s as [|c s]; [done|]. cbn. intros Hc.
  destruct (rstrip s); [by rewrite Hc | done].
Qed.

Lemma rstrip_idem s : rstrip (rstrip s) = rstrip s.
Proof.
  induction s as [|c s IH]; [done|]. cbn [rstrip].
  destruct (rstrip s) as [|c' r] eqn:Hr.
  - destruct (isspace c) eqn:Hc; [done|]. cbn. by rewrite Hc.
  - change (rstrip (String c (String c' r)))
      with (match rstrip (String c' r) with
            | EmptyString =>
                if isspace c then EmptyString else String c EmptyString
            | r0 => String c r0
            end).
    by rewrite IH.
Qed.

Lemma strip_idem s : strip (strip s) = strip s.
Proof.
  unfold strip.
  rewrite (lstrip_fixed (rstrip (lstrip s)))
    by apply rstrip_left_trimmed, lstrip_left_trimmed.
  apply rstrip_idem.
Qed.

Lemma strip_normalized s : lower s = s → normalized (strip s).
Proof.
  intros Hs. split; [by rewrite lower_strip, Hs | apply strip_idem].
Qed.

Lemma text_after_lower phrase s t :
  lower s = s → text_after phrase s = Some t → lower t = t.
Proof.
  intros Hs. unfold text_after.
  destruct (find_str phrase s) as [i|]; [|done]. cbn.
  intros [= <-].
  assert (lower (drop_str (i + String.length phrase) s)
          = drop_str (i + String.length phrase) s) as Hd.
  { by rewrite lower_drop_str, Hs. }
  destruct (find_str phrase (drop_str _ s)) as [j|]; [|done].
  by rewrite lower_take_str, Hd.
Qed.

Lemma split_from_lower sep k cur s :
  lower cur = cur → lower s = s →
  Forall (fun piece => lower piece = piece) (split_from sep k cur s).
Proof.
  revert k cur; induction s as [|c s IH]; intros k cur Hcur Hs.
  - by repeat constructor.
  - injection Hs as Hc Hs'. cbn [split_from].
    destruct k as [|k]; [|by apply IH].
    destruct (String.prefix sep (String c s)).
    + constructor; [done|]. by apply IH.
    + apply IH; [|done]. rewrite lower_app, Hcur. cbn. by rewrite Hc.
Qed.

Lemma lower_concat_empty pieces :
  Forall (fun piece => lower piece = piece) pieces →
  lower (String.concat EmptyString pieces) = String.concat EmptyString pieces.
Proof.
  induction 1 as [|p ps Hp _ IH]; [done|].
  destruct ps as [|q ps]; [done|].
  change (String.concat EmptyString (p :: q :: ps))
    with (p +:+ EmptyString +:+ String.concat EmptyString (q :: ps)).
  rewrite !lower_app, Hp, IH. done.
Qed.

Lemma weather_override_normalized u : normalized (weather_override u).
Proof.
  unfold weather_override. apply strip_normalized.
  unfold replace, join, split. cbn.
  apply lower_concat_empty, split_from_lower; [done | apply lower_idem].
Qed.

Lemma prefix_drop a s :
  String.prefix a s = true → a +:+ drop_str (String.length a) s = s.
Proof.
  revert s; induction a as [|c a IH]; intros s; [done|].
  destruct s as [|c' s]; [done|]. cbn [String.prefix].
  destruct (ascii_dec c c') as [<-|]; [|done]. intros Hp.
  change (String c (a +:+ drop_str (String.length a) s) = String c s).
  by rewrite IH.
Qed.

Lemma split_from_cons sep k cur s : ∃ p ps, split_from sep k cur s = p :: ps.
Proof.
  revert k cur; induction s as [|c s IH]; intros k cur; cbn [split_from].
  - eauto.
  - destruct k; [|apply IH]. destruct (String.prefix sep (String c s)); eauto.
Qed.

Lemma concat_split_from sep k cur s :
  sep ≠ EmptyString →
  String.concat sep (split_from sep k cur s) = cur +:+ drop_str k s.
Proof.
  intros Hsep. revert k cur; induction s as [|c s IH]; intros k cur.
  - cbn. destruct k; by rewrite append_empty_r.
  - cbn [split_from]. destruct k as [|k]; [|apply IH].
    destruct (String.prefix sep (String c s)) eqn:Hp.
    + destruct (split_from_cons sep (String.length sep - 1) EmptyString s)
        as (p & ps & Hps).
      pose proof (IH (String.length sep - 1)%nat EmptyString) as Hrest.
      rewrite Hps in *.
      change (String.concat sep (cur :: p :: ps))
        with (cur +:+ sep +:+ String.concat sep (p :: ps)).
      rewrite Hrest. cbn [drop_str]. f_equal.
      change (EmptyString +:+ drop_str (String.length sep - 1) s)
        with (drop_str (String.length sep - 1) s).
      etrans; [|apply (prefix_drop sep (String c s) Hp)]. f_equal.
      destruct (length_nonempty sep Hsep) as [n ->]. cbn.
      by rewrite Nat.sub_0_r.
    + rewrite IH. cbn [drop_str]. by rewrite append_assoc_str.
Qed.

(** X10. Splitting a text at a phrase that is not empty and joining the
    pieces with the phrase gives the text back, so replacing a phrase by
    itself changes nothing; this is Python's
    [p.join(s.split(p)) == s], for the [split] behind the manual
    assertion and the [replace] behind the weather override. *)
Theorem join_split_round_trip (phrase s : string) :
  phrase ≠ EmptyString →
  join phrase (split phrase s) = s ∧ replace phrase phrase s = s.
Proof.
  intros Hne.
  assert (join phrase (split phrase s) = s) as Hjoin.
  { unfold join, split. by rewrite concat_split_from. }
  split; [done|]. unfold replace. by destruct phrase.
Qed.

Lemma join_split_round_trip_witness :
  "weather" ≠ EmptyString ∧
  join "weather" (split "weather" "weather paris weather")
  = "weather paris weather" ∧
  replace "weather" "weather" "weather paris weather"
  = "weather paris weather".
Proof.
  split; [done|].
  exact (join_split_round_trip "weather" "weather paris weather"
           ltac:(done)).
Defined.

(** ** The router *)

Lemma fresh_prefs_insert_name (u : string) :
  next_unset (<["name" := Some u]> (user_prefs fresh_session))
  = Some "location".
Proof. unfold next_unset. by simplify_map_eq. Qed.

(** X11. Onboarding takes exactly two utterances, whatever they are: in
    a fresh session the first is stored as the name and answered by the
    acknowledgment and the location question that greets by that name,
    the second is stored as the location and answered by the
    acknowledgment alone; after that both preferences are set, no
    question is pending, and no provider was contacted. *)
Theorem onboarding_two_answers (E1 E2 : env) (u1 u2 : string) :
  ∃ w1 w2,
    generate_response E1 u1 fresh_world
    = (Val (acknowledgment +:+ nl +:+ nl +:+ "Thanks " +:+ u1 +:+
            "! Where are you located? (This helps with weather reports)"),
       w1) ∧
    awaiting_preference (sess w1) = Some "location" ∧
    generate_response E2 u2 w1 = (Val acknowledgment, w2) ∧
    user_prefs (sess w2) !! "name" = Some (Some u1) ∧
    user_prefs (sess w2) !! "location" = Some (Some u2) ∧
    awaiting_preference (sess w2) = None ∧
    calls w2 = [].
Proof.
  pose proof fresh_invariant as [Hcs _].
  destruct (dispatch_refines E1 fresh_world u1 Hcs) as (b1 & Hb1 & Hrun1).
  rewrite first_match_cases in Hb1. cbn in Hb1. injection Hb1 as <-.
  rewrite (run_pending E1 u1 fresh_world "name" Hcs eq_refl) in Hrun1.
  cbn [sess fresh_world] in Hrun1.
  set (w1 := with_prefs (<["name" := Some u1]> (user_prefs fresh_session))
               (next_unset (<["name" := Some u1]> (user_prefs fresh_session)))
               fresh_world) in *.
  assert (Hcs1 : conversation_state (sess w1)).
  { by destruct (pending_invariant fresh_world "name" u1 Hcs). }
  assert (Haw1 : awaiting_preference (sess w1) = Some "location").
  { apply fresh_prefs_insert_name. }
  destruct (dispatch_refines E2 w1 u2 Hcs1) as (b2 & Hb2 & Hrun2).
  rewrite first_match_cases, Haw1 in Hb2. cbn in Hb2. injection Hb2 as <-.
  rewrite (run_pending E2 u2 w1 "location" Hcs1 Haw1) in Hrun2.
  eexists w1, _. split.
  { rewrite Hrun1. unfold pending_response.
    rewrite fresh_prefs_insert_name. cbn [question_of String.eqb].
    unfold location_question. by simplify_map_eq. }
  split; [done|]. split.
  { rewrite Hrun2. f_equal;
      unfold pending_response, next_unset; subst w1; cbn; by simplify_map_eq. }
  subst w1. cbn. unfold next_unset. by simplify_map_eq.
Qed.

Lemma settled_conversation (s : session_state) :
  is_set (user_prefs s) "name" → is_set (user_prefs s) "location" →
  awaiting_preference s = None → conversation_state s.
Proof.
  intros Hn Hl Haw. split; [by apply is_set_is_Some|].
  split; [by apply is_set_is_Some | by left].
Qed.

Lemma settled_next_unset (prefs : prefs_dict) :
  is_set prefs "name" → is_set prefs "location" → next_unset prefs = None.
Proof. intros [n Hn] [l Hl]. unfold next_unset. by rewrite Hn, Hl. Qed.

(** X12. Once both preferences are set and no question is pending, it
    stays so: whatever is said next, the router answers without raising,
    never through the pending-preference branch or the
    incomplete-preferences guard, and afterwards both preferences are
    still set and no question is pending. *)
Theorem settled_stays_settled (E : env) (w : world) (u : string) :
  is_set (user_prefs (sess w)) "name" →
  is_set (user_prefs (sess w)) "location" →
  awaiting_preference (sess w) = None →
  ∃ b text w',
    first_match (sess w) u = Some b ∧
    b ≠ PendingPreference ∧ b ≠ IncompleteGuard ∧
    generate_response E u w = (Val text, w') ∧
    is_set (user_prefs (sess w')) "name" ∧
    is_set (user_prefs (sess w')) "location" ∧
    awaiting_preference (sess w') = None.
Proof.
  intros Hn Hl Haw.
  pose proof (settled_conversation _ Hn Hl Haw) as Hcs.
  destruct (respond_outcome E w u Hcs) as (b & text & w' & Hb & Hrun & Hout).
  exists b, text, w'. split; [done|].
  destruct b; cbn in Hout.
  - destruct Hout as (k & Hk & _). congruence.
  - destruct Hout as (t & _ & _ & ->). repeat split; try done;
      by apply is_set_insert.
  - destruct Hout as (t & _ & _ & ->). repeat split; try done;
      by apply is_set_insert.
  - destruct Hout as (k & Hk & _). by rewrite settled_next_unset in Hk.
  - destruct Hout as (stored & _ & _ & ->). done.
  - destruct Hout as (_ & ->). done.
  - destruct Hout as (? & ? & _ & _ & _ & ->). done.
  - destruct Hout as (_ & ->). done.
  - destruct Hout as (_ & ->). done.
Qed.

Lemma settled_is_set :
  is_set (user_prefs (sess settled_world)) "name" ∧
  is_set (user_prefs (sess settled_world)) "location".
Proof. split; by eexists. Qed.

Lemma settled_stays_settled_witness :
  ∃ b text w',
    first_match (sess settled_world) "my name is Bob" = Some b ∧
    b ≠ PendingPreference ∧ b ≠ IncompleteGuard ∧
    generate_response sample_env "my name is Bob" settled_world
      = (Val text, w') ∧
    is_set (user_prefs (sess w')) "name" ∧
    is_set (user_prefs (sess w')) "location" ∧
    awaiting_preference (sess w') = None.
Proof.
  apply (settled_stays_settled sample_env settled_world "my name is Bob");
    [apply settled_is_set | apply settled_is_set | reflexivity].
Defined.

(** X13. With no question pending, an utterance with "set location to"
    and without "my name is" stores as the location the lowercased text
    between the first "set location to" and the next one, or the end of
    the utterance when the phrase does not occur again, trimmed (the
    element 1 of the split at line 163), and leaves the name as it was;
    when "my name is" occurs as well, the name assertion runs instead
    and the location is left as it was. *)
Theorem manual_location_assertion (E : env) (w : world) (u : string) :
  awaiting_preference (sess w) = None →
  (∀ t, contains "my name is" (lower u) = false →
        text_after "set location to" (lower u) = Some t →
        generate_response E u w
        = (Val acknowledgment,
           with_prefs (<["location" := Some (strip t)]> (user_prefs (sess w)))
             None w) ∧
        user_prefs (sess (generate_response E u w).2) !! "name"
        = user_prefs (sess w) !! "name") ∧
  (contains "my name is" (lower u) = true →
   user_prefs (sess (generate_response E u w).2) !! "location"
   = user_prefs (sess w) !! "location").
Proof.
  intros Haw. split.
  - intros t Hname Ht.
    assert (generate_response E u w
            = (Val acknowledgment,
               with_prefs (<["location" := Some (strip t)]>
                             (user_prefs (sess w))) None w)) as Hrun.
    { unfold generate_response, bind at 1, get_session at 1. cbn [fst snd].
      rewrite Haw, Hname.
      assert (contains "set location to" (lower u) = true) as ->.
      { rewrite contains_find. apply bool_decide_eq_true_2.
        unfold text_after in Ht. destruct (find_str _ _); [eauto|done]. }
      by apply run_manual. }
    split; [done|]. rewrite Hrun. cbn. by rewrite lookup_insert_ne.
  - intros Hname.
    destruct (text_after_contains _ _ Hname) as [t Ht].
    assert (generate_response E u w
            = (Val acknowledgment,
               with_prefs (<["name" := Some (strip t)]>
                             (user_prefs (sess w))) None w)) as ->.
    { unfold generate_response, bind at 1, get_session at 1. cbn [fst snd].
      rewrite Haw, Hname. by apply run_manual. }
    cbn. by rewrite lookup_insert_ne.
Qed.

Lemma manual_location_assertion_witness :
  awaiting_preference (sess settled_world) = None ∧
  generate_response sample_env
    "set location to Kandy, do not set location to Galle" settled_world
  = (Val acknowledgment,
     with_prefs (<["location" := Some "kandy, do not"]>
                   (user_prefs (sess settled_world)))
       None settled_world).
Proof.
  split; [reflexivity|].
  apply (proj1 (manual_location_assertion sample_env settled_world
                  "set location to Kandy, do not set location to Galle"
                  eq_refl) " kandy, do not ");
    reflexivity.
Defined.

(** When the phrase occurs once, the stored text runs to the end of the
    utterance. *)
Example manual_location_once :
  generate_response sample_env "Set location to  Paris " settled_world
  = (Val acknowledgment,
     with_prefs (<["location" := Some "paris"]> (user_prefs (sess settled_world)))
       None settled_world).
Proof. vm_compute. reflexivity. Qed.

(** X14. A preference stored by a manual assertion is always
    lowercased and trimmed: [lower] and [strip] leave the stored value
    as it is. *)
Theorem manual_value_normalized (E : env) (w : world) (u : string) :
  awaiting_preference (sess w) = None →
  (contains "my name is" (lower u) = true →
   ∃ v, user_prefs (sess (generate_response E u w).2) !! "name"
        = Some (Some v) ∧ normalized v) ∧
  (contains "my name is" (lower u) = false →
   contains "set location to" (lower u) = true →
   ∃ v, user_prefs (sess (generate_response E u w).2) !! "location"
        = Some (Some v) ∧ normalized v).
Proof.
  intros Haw. split.
  - intros Hname. destruct (text_after_contains _ _ Hname) as [t Ht].
    exists (strip t). split.
    + unfold generate_response, bind at 1, get_session at 1. cbn [fst snd].
      rewrite Haw, Hname, (run_manual u w "my name is" "name" t) by done.
      cbn. by rewrite lookup_insert_eq.
    + apply strip_normalized, (text_after_lower _ _ _ (lower_idem u) Ht).
  - intros Hname Hloc. destruct (text_after_contains _ _ Hloc) as [t Ht].
    exists (strip t). split.
    + unfold generate_response, bind at 1, get_session at 1. cbn [fst snd].
      rewrite Haw, Hname, Hloc,
        (run_manual u w "set location to" "location" t) by done.
      cbn. by rewrite lookup_insert_eq.
    + apply strip_normalized, (text_after_lower _ _ _ (lower_idem u) Ht).
Qed.

Lemma manual_value_normalized_witness :
  awaiting_preference (sess settled_world) = None ∧
  ∃ v, user_prefs
         (sess (generate_response sample_env "My Name Is  ALEX " settled_world).2)
       !! "name" = Some (Some v) ∧ normalized v.
Proof.
  split; [reflexivity|].
  apply (manual_value_normalized sample_env settled_world "My Name Is  ALEX ");
    reflexivity.
Defined.

(** X15. In the weather branch the lookup is asked either for the stored
    location or for an override that is not empty, lowercased and
    trimmed; the stored location itself is not changed by the request. *)
Theorem weather_query_shape (E : env) (w : world) (u stored : string) :
  is_set (user_prefs (sess w)) "name" →
  user_prefs (sess w) !! "location" = Some (Some stored) →
  awaiting_preference (sess w) = None →
  first_match (sess w) u = Some Weather →
  ∃ text q,
    generate_response E u w = (Val text, logged (WeatherGet (Some q)) w) ∧
    (q = stored ∨ (q ≠ EmptyString ∧ normalized q)) ∧
    user_prefs (sess (logged (WeatherGet (Some q)) w)) !! "location"
    = Some (Some stored).
Proof.
  intros Hn Hl Haw Hb.
  assert (Hcs : conversation_state (sess w)).
  { apply settled_conversation; [done | by exists stored | done]. }
  destruct (respond_outcome E w u Hcs) as (b & text & w' & Hb' & Hrun & Hout).
  rewrite Hb in Hb'. injection Hb' as <-. cbn in Hout.
  destruct Hout as (stored' & Hl' & _ & ->).
  rewrite Hl in Hl'. injection Hl' as <-.
  exists text, (weather_location u stored). split; [done|]. split; [|done].
  unfold weather_location.
  destruct (truthy (weather_override u)) eqn:Ht; [right | by left].
  split; [|apply weather_override_normalized].
  intros Heq. by rewrite Heq in Ht.
Qed.

Lemma weather_query_shape_witness :
  ∃ text q,
    generate_response sample_env "WEATHER in Kandy" settled_world
    = (Val text, logged (WeatherGet (Some q)) settled_world) ∧
    (q = "Colombo" ∨ (q ≠ EmptyString ∧ normalized q)) ∧
    user_prefs (sess (logged (WeatherGet (Some q)) settled_world)) !! "location"
    = Some (Some "Colombo").
Proof.
  apply (weather_query_shape sample_env settled_world "WEATHER in Kandy"
           "Colombo");
    [apply settled_is_set | reflexivity | reflexivity | reflexivity].
Defined.

(** X16. The router contacts at most one provider for an utterance, and
    none before both preferences are set: when a call is made, no
    question was pending, both preferences were set, and the call is a
    weather request, the task request, or the model request with the
    utterance as it was typed. *)
Theorem one_call_when_settled (E : env) (w : world) (u : string) :
  conversation_state (sess w) →
  ∃ text w',
    generate_response E u w = (Val text, w') ∧
    (calls w' = calls w ∨
     ∃ c, calls w' = calls w ++ [c] ∧
          awaiting_preference (sess w) = None ∧
          is_set (user_prefs (sess w)) "name" ∧
          is_set (user_prefs (sess w)) "location" ∧
          ((∃ q, c = WeatherGet (Some q)) ∨ c = TodoistGet ∨
           c = GeminiGenerate u)).
Proof.
  intros Hcs. pose proof Hcs as (Hn & Hl & _).
  destruct (respond_outcome E w u Hcs) as (b & text & w' & Hb & Hrun & Hout).
  destruct (first_match_inv _ _ _ Hb) as (_ & Haw & Hlate).
  exists text, w'. split; [done|].
  assert (b ∈ [Weather; Tasks; WhoAmI; Help; Fallback] →
          awaiting_preference (sess w) = None ∧
          is_set (user_prefs (sess w)) "name" ∧
          is_set (user_prefs (sess w)) "location") as Hset.
  { intros Hin. destruct (Hlate Hin) as (Hnone & _).
    split; [apply Haw; intros ->; by repeat
              (apply elem_of_cons in Hin as [Hin|Hin]; [discriminate|]);
              apply elem_of_nil in Hin|].
    by apply next_unset_None. }
  destruct b; cbn in Hout.
  - destruct Hout as (k & _ & _ & ->). by left.
  - destruct Hout as (t & _ & _ & ->). by left.
  - destruct Hout as (t & _ & _ & ->). by left.
  - destruct Hout as (k & _ & _ & ->). by left.
  - destruct Hout as (stored & _ & _ & ->). right.
    destruct Hset as (? & ? & ?); [rewrite !elem_of_cons; auto|].
    eexists. split; [reflexivity|]. repeat split; eauto.
  - destruct Hout as (_ & ->). right.
    destruct Hset as (? & ? & ?); [rewrite !elem_of_cons; auto|].
    eexists. split; [reflexivity|]. repeat split; eauto.
  - destruct Hout as (? & ? & _ & _ & _ & ->). by left.
  - destruct Hout as (_ & ->). by left.
  - destruct Hout as (_ & ->). right.
    destruct Hset as (? & ? & ?); [rewrite !elem_of_cons; auto 10|].
    eexists. split; [reflexivity|]. repeat split; eauto.
Qed.

Lemma one_call_when_settled_witness :
  conversation_state (sess fresh_world) ∧
  ∃ text w',
    generate_response sample_env "weather" fresh_world = (Val text, w') ∧
    calls w' = calls fresh_world.
Proof.
  split; [apply fresh_invariant|].
  destruct (one_call_when_settled sample_env fresh_world "weather")
    as (text & w' & Hrun & Hcalls); [apply fresh_invariant|].
  exists text, w'. split; [exact Hrun|].
  destruct Hcalls as [Hsame | (c & _ & Haw & _)]; [exact Hsame|].
  discriminate Haw.
Defined.

(** X17. With both preferences set and no question pending, an
    utterance with "who am i" and none of the triggers ahead of it is
    answered by the identity line made of the stored name and location,
    and one with "help" and none of the triggers ahead of it by the fixed
    help text; neither contacts a provider nor changes anything. *)
Theorem identity_and_help (E : env) (w : world) (u name stored : string) :
  user_prefs (sess w) !! "name" = Some (Some name) →
  user_prefs (sess w) !! "location" = Some (Some stored) →
  awaiting_preference (sess w) = None →
  (first_match (sess w) u = Some WhoAmI →
   generate_response E u w
   = (Val ("You are " +:+ name +:+ ", located in " +:+ stored +:+ ". "), w)) ∧
  (first_match (sess w) u = Some Help →
   generate_response E u w = (Val help_text, w)).
Proof.
  intros Hn Hl Haw.
  assert (Hcs : conversation_state (sess w)).
  { apply settled_conversation; [by exists name | by exists stored | done]. }
  destruct (respond_outcome E w u Hcs) as (b & text & w' & Hb & Hrun & Hout).
  split; intros Hb'; rewrite Hb' in Hb; injection Hb as <-; cbn in Hout.
  - destruct Hout as (name' & stored' & Hn' & Hl' & -> & ->).
    rewrite Hn in Hn'. rewrite Hl in Hl'. by simplify_eq.
  - by destruct Hout as (-> & ->).
Qed.

Lemma identity_and_help_witness :
  generate_response sample_env "Who am I?" settled_world
  = (Val "You are Alex, located in Colombo. ", settled_world).
Proof.
  apply (identity_and_help sample_env settled_world "Who am I?" "Alex"
           "Colombo"); reflexivity.
Defined.

(** X18. The fallback hands the utterance to the model as it was typed,
    not lowercased, and returns the model's text as it is, or, when the
    model's call fails, the apology with the error's text; the session is
    left as it was. *)
Theorem fallback_forwards_verbatim (E : env) (w : world) (u : string) :
  conversation_state (sess w) →
  first_match (sess w) u = Some Fallback →
  generate_response E u w
  = (Val match gemini_api E u with
         | Val answer => answer
         | Exc e => "Sorry, I encountered an error: " +:+ exn_str e
         end,
     logged (GeminiGenerate u) w).
Proof.
  intros Hcs Hb.
  destruct (respond_outcome E w u Hcs) as (b & text & w' & Hb' & Hrun & Hout).
  rewrite Hb in Hb'. injection Hb' as <-. cbn in Hout.
  by destruct Hout as (-> & ->).
Qed.


Lemma fallback_forwards_verbatim_witness :
  conversation_state (sess settled_world) ∧
  generate_response echo_env "Tell Me A Joke" settled_world
  = (Val "You said: Tell Me A Joke",
     logged (GeminiGenerate "Tell Me A Joke") settled_world).
Proof.
  split; [exact settled_conversation_state|].
  apply (fallback_forwards_verbatim echo_env settled_world "Tell Me A Joke");
    [exact settled_conversation_state | reflexivity].
Defined.

(** X19. A name set by a manual assertion is what the next "who am i"
    reports: after an utterance with "my name is" in a settled session,
    "who am i" answers with the stored text, which is the lowercased
    text between the first "my name is" and the next one, or the end of
    the utterance when the phrase does not occur again, trimmed, and
    with the location as it was. *)
Theorem manual_name_then_identity (E1 E2 : env) (w : world)
    (u t name stored : string) :
  user_prefs (sess w) !! "name" = Some (Some name) →
  user_prefs (sess w) !! "location" = Some (Some stored) →
  awaiting_preference (sess w) = None →
  text_after "my name is" (lower u) = Some t →
  ∃ w1,
    generate_response E1 u w = (Val acknowledgment, w1) ∧
    generate_response E2 "who am i" w1
    = (Val ("You are " +:+ strip t +:+ ", located in " +:+ stored +:+ ". "),
       w1).
Proof.
  intros Hn Hl Haw Ht.
  assert (contains "my name is" (lower u) = true) as Hname.
  { rewrite contains_find. apply bool_decide_eq_true_2.
    unfold text_after in Ht. destruct (find_str _ _); [eauto|done]. }
  eexists. split.
  { unfold generate_response, bind at 1, get_session at 1. cbn [fst snd].
    rewrite Haw, Hname. by apply run_manual. }
  set (w1 := with_prefs _ None w).
  assert (Hn1 : user_prefs (sess w1) !! "name" = Some (Some (strip t))).
  { apply lookup_insert_eq. }
  assert (Hl1 : user_prefs (sess w1) !! "location" = Some (Some stored)).
  { subst w1. cbn. by rewrite lookup_insert_ne. }
  assert (Hcs1 : conversation_state (sess w1)).
  { apply settled_conversation; [by eexists | by eexists | done]. }
  destruct (dispatch_refines E2 w1 "who am i" Hcs1) as (b & Hb & Hrun).
  rewrite first_match_cases in Hb. unfold next_unset in Hb.
  rewrite Hn1, Hl1 in Hb. cbn in Hb. injection Hb as <-.
  rewrite Hrun.
  by apply (run_who_am_i E2 "who am i" w1 (Some (strip t)) (Some stored)).
Qed.

Lemma manual_name_then_identity_witness :
  ∃ w1,
    generate_response sample_env "my name is Bob and not my name is Alice"
      settled_world
    = (Val acknowledgment, w1) ∧
    generate_response sample_env "who am i" w1
    = (Val "You are bob and not, located in Colombo. ", w1).
Proof.
  apply (manual_name_then_identity sample_env sample_env settled_world
           "my name is Bob and not my name is Alice" " bob and not "
           "Alex" "Colombo"); reflexivity.
Defined.

(** When the phrase occurs once, the name runs to the end of the
    utterance. *)
Example manual_name_once :
  generate_response sample_env "who am i"
    (generate_response sample_env "my name is Bob" settled_world).2
  = (Val "You are bob, located in Colombo. ",
     with_prefs (<["name" := Some "bob"]> (user_prefs (sess settled_world)))
       None settled_world).
Proof. vm_compute. reflexivity. Qed.

Lemma dom_insert_present (prefs : prefs_dict) k v :
  is_Some (prefs !! k) → dom (<[k := v]> prefs) = dom prefs.
Proof.
  intros Hk. rewrite dom_insert_L.
  apply subseteq_union_1_L, singleton_subseteq_l, elem_of_dom, Hk.
Qed.

Lemma respond_session (E : env) (w : world) (u : string) :
  conversation_state (sess w) →
  ∃ text w',
    generate_response E u w = (Val text, w') ∧
    messages (sess w') = messages (sess w) ∧
    (user_prefs (sess w') = user_prefs (sess w) ∨
     ∃ k v, is_Some (user_prefs (sess w) !! k) ∧
            user_prefs (sess w') = <[k := Some v]> (user_prefs (sess w))) ∧
    (awaiting_preference (sess w') = None ∨
     awaiting_preference (sess w') = Some "name" ∨
     awaiting_preference (sess w') = Some "location").
Proof.
  intros Hcs. pose proof Hcs as (Hn & Hl & Hcur).
  destruct (respond_outcome E w u Hcs) as (b & text & w' & Hb & Hrun & Hout).
  exists text, w'. split; [done|].
  destruct b; cbn in Hout.
  - destruct Hout as (k & Hk & _ & ->).
    destruct (pending_invariant w k u Hcs) as [(_ & _ & Hcur') _].
    split; [done|]. split; [|done]. right. exists k, u. split; [|done].
    destruct Hcur as [Hc | [Hc | Hc]]; rewrite Hc in Hk; by simplify_eq.
  - destruct Hout as (t & _ & _ & ->).
    split; [done|]. split; [|by left].
    right. exists "name", (strip t). by split.
  - destruct Hout as (t & _ & _ & ->).
    split; [done|]. split; [|by left].
    right. exists "location", (strip t). by split.
  - destruct Hout as (k & Hk & _ & ->).
    split; [done|]. split; [by left|]. cbn.
    apply next_unset_Some in Hk as [[-> _] | (-> & _)]; auto.
  - destruct Hout as (stored & _ & _ & ->). by split; [|split; [left|]].
  - destruct Hout as (_ & ->). by split; [|split; [left|]].
  - destruct Hout as (? & ? & _ & _ & _ & ->). by split; [|split; [left|]].
  - destruct Hout as (_ & ->). by split; [|split; [left|]].
  - destruct Hout as (_ & ->). by split; [|split; [left|]].
Qed.

Lemma is_Some_insert (prefs : prefs_dict) k k' v :
  is_Some (prefs !! k') → is_Some (<[k := v]> prefs !! k').
Proof.
  intros Hk'. destruct (decide (k = k')) as [->|Hne].
  - rewrite lookup_insert_eq. eauto.
  - by rewrite lookup_insert_ne.
Qed.

Lemma respond_conversation_state (E : env) (w : world) (u : string) :
  conversation_state (sess w) →
  ∃ text w',
    generate_response E u w = (Val text, w') ∧
    conversation_state (sess w') ∧
    messages (sess w') = messages (sess w).
Proof.
  intros Hcs. pose proof Hcs as (Hn & Hl & _).
  destruct (respond_session E w u Hcs)
    as (text & w' & Hrun & Hm & Hprefs & Hcur).
  exists text, w'. split; [done|]. split; [|done].
  unfold conversation_state.
  destruct Hprefs as [-> | (k & v & _ & ->)]; [done|].
  split; [by apply is_Some_insert|]. split; [by apply is_Some_insert | done].
Qed.

(** X20. The router keeps the shape of the session: from a conversation
    state it ends in a conversation state, the preference record keeps
    exactly the keys it had, and the chat history is not touched. *)
Theorem respond_keeps_shape (E : env) (w : world) (u : string) :
  conversation_state (sess w) →
  ∃ text w',
    generate_response E u w = (Val text, w') ∧
    conversation_state (sess w') ∧
    dom (user_prefs (sess w')) = dom (user_prefs (sess w)) ∧
    messages (sess w') = messages (sess w).
Proof.
  intros Hcs.
  destruct (respond_session E w u Hcs)
    as (text & w' & Hrun & Hm & Hprefs & _).
  destruct (respond_conversation_state E w u Hcs)
    as (text' & w'' & Hrun' & Hcs' & _).
  rewrite Hrun in Hrun'. injection Hrun' as <- <-.
  exists text, w'. split; [done|]. split; [done|]. split; [|done].
  destruct Hprefs as [-> | (k & v & Hk & ->)]; [done|].
  rewrite dom_insert_L.
  apply subseteq_union_1_L, singleton_subseteq_l, elem_of_dom, Hk.
Qed.

Lemma respond_keeps_shape_witness :
  conversation_state (sess blank_world) ∧
  ∃ text w',
    generate_response sample_env "set location to Galle" blank_world
    = (Val text, w') ∧
    conversation_state (sess w') ∧
    dom (user_prefs (sess w')) = dom (user_prefs (sess blank_world)) ∧
    messages (sess w') = messages (sess blank_world).
Proof.
  split; [exact blank_conversation_state|].
  apply (respond_keeps_shape sample_env blank_world "set location to Galle").
  exact blank_conversation_state.
Defined.

(** ** The quick actions *)

(** X21. The quick action compares its argument exactly: "weather"
    runs the weather lookup and "tasks" the task lookup, and anything
    else, a different case included, gives "Unknown action" without
    contacting a provider.  No quick action raises or changes the
    session. *)
Theorem quick_action_cases (E : env) (action : string) (w : world) :
  (action ≠ "weather" → action ≠ "tasks" →
   handle_quick_action E action w = (Val "Unknown action", w)) ∧
  handle_quick_action E "tasks" w = get_tasks E w ∧
  handle_quick_action E "Weather" w = (Val "Unknown action", w) ∧
  ∃ text w',
    handle_quick_action E action w = (Val text, w') ∧ sess w' = sess w.
Proof.
  split; [|split; [reflexivity|split; [reflexivity|]]].
  - intros Hw Ht. unfold handle_quick_action.
    apply String.eqb_neq in Hw, Ht. by rewrite Hw, Ht.
  - destruct (handle_quick_action E action w) as [r w'] eqn:Hrun.
    pose proof (quick_action_session _ _ _ _ _ Hrun) as Hs.
    unfold handle_quick_action in Hrun.
    destruct (String.eqb action "weather").
    + unfold bind, prefs_get, get_session in Hrun. cbn in Hrun.
      destruct (get_weather_returns E
                  (default (Some "Colombo") (user_prefs (sess w) !! "location"))
                  w) as [text Ht].
      rewrite Ht in Hrun. injection Hrun as <- <-. eauto.
    + destruct (String.eqb action "tasks").
      * destruct (get_tasks_returns E w) as [text Ht].
        rewrite Ht in Hrun. injection Hrun as <- <-. eauto.
      * injection Hrun as <- <-. eauto.
Qed.

(** X22. The default of the weather quick action is for a preference
    record without the key "location": then, and only then, the weather
    is looked up for "Colombo". *)
Theorem quick_action_default_location (E : env) (w : world) :
  (user_prefs (sess w) !! "location" = None →
   handle_quick_action E "weather" w = get_weather E (Some "Colombo") w) ∧
  (∀ v, user_prefs (sess w) !! "location" = Some v →
        handle_quick_action E "weather" w = get_weather E v w).
Proof.
  unfold handle_quick_action. cbn. unfold bind, prefs_get, get_session. cbn.
  split; [by intros -> | by intros v ->].
Qed.

Lemma quick_action_default_location_witness :
  user_prefs (sess nameonly_world) !! "location" = None ∧
  ∃ text,
    handle_quick_action sample_env "weather" nameonly_world
    = (Val text, logged (WeatherGet (Some "Colombo")) nameonly_world).
Proof.
  split; [reflexivity|].
  rewrite (proj1 (quick_action_default_location sample_env nameonly_world)
             eq_refl).
  apply get_weather_returns.
Defined.

(** ** The script *)

Lemma append_message_run r content w :
  append_message r content w
  = (Val tt,
     with_messages (messages (sess w)
                    ++ [{| msg_role := r; msg_content := content |}]) w).
Proof. reflexivity. Qed.

Lemma all_None_lookup (prefs : prefs_dict) k :
  all_None prefs = true → is_Some (prefs !! k) → prefs !! k = Some None.
Proof.
  intros Hall%bool_decide_eq_true_1 [v Hv]. by rewrite (Hall k v Hv) in Hv.
Qed.

Lemma opening_block_run w :
  conversation_state (sess w) → opening_block w = (Val tt, opened w).
Proof.
  intros (Hn & Hl & _). unfold opening_block, opened, bind, get_session.
  cbn [fst snd].
  destruct (all_None (user_prefs (sess w))) eqn:Hall; [|reflexivity].
  destruct (bool_decide (messages (sess w) = [])) eqn:Hm; [|reflexivity].
  apply bool_decide_eq_true_1 in Hm. cbn [andb].
  rewrite ask_preference_questions_run by done.
  unfold after_ask, next_unset. rewrite (all_None_lookup _ "name" Hall Hn).
  cbn. rewrite append_message_run. cbn. rewrite Hm. reflexivity.
Qed.

Lemma opened_nonempty w : messages (sess w) ≠ [] → opened w = w.
Proof.
  intros Hm. unfold opened. rewrite (bool_decide_eq_false_2 _ Hm).
  by rewrite andb_false_r.
Qed.

Lemma opened_conversation_state w :
  conversation_state (sess w) → conversation_state (sess (opened w)).
Proof.
  intros Hcs. unfold opened. destruct (_ && _); [|done].
  destruct Hcs as (Hn & Hl & _). split; [done|]. split; [done|]. by right; left.
Qed.

Lemma opened_idem w : opened (opened w) = opened w.
Proof.
  destruct (all_None (user_prefs (sess w))
            && bool_decide (messages (sess w) = [])) eqn:Hc.
  - assert (opened w
            = with_messages [assistant_message name_question]
                (with_prefs (user_prefs (sess w)) (Some "name") w)) as ->.
    { unfold opened. by rewrite Hc. }
    by apply opened_nonempty.
  - assert (opened w = w) as Hw; [|by rewrite !Hw].
    unfold opened. by rewrite Hc.
Qed.

Lemma conversation_state_with_messages ms w :
  conversation_state (sess w) → conversation_state (sess (with_messages ms w)).
Proof. done. Qed.

Lemma script_pass_idle E w :
  conversation_state (sess w) → script_pass E NoEvent w = (Val false, opened w).
Proof.
  intros Hcs. unfold script_pass, bind. cbn [chat_block chat_input ret].
  by rewrite opening_block_run.
Qed.

(** X23. A run of the script without an event asks the opening
    question exactly once: in a session with no preference set and an
    empty history it puts the name question into the history and points
    the cursor at the name; in any other session, and so on every later
    run without an event, it changes nothing.  A fresh session is of the
    first kind. *)
Theorem idle_run_opens_once (E : env) (w : world) :
  conversation_state (sess w) →
  script_run E NoEvent w = (Val tt, opened w) ∧
  script_run E NoEvent (opened w) = (Val tt, opened w) ∧
  (all_None (user_prefs (sess w)) = true → messages (sess w) = [] →
   messages (sess (opened w)) = [assistant_message name_question] ∧
   awaiting_preference (sess (opened w)) = Some "name" ∧
   user_prefs (sess (opened w)) = user_prefs (sess w)) ∧
  (all_None (user_prefs (sess w)) = false ∨ messages (sess w) ≠ [] →
   opened w = w) ∧
  opened fresh_world
  = with_messages [assistant_message name_question] fresh_world.
Proof.
  intros Hcs.
  assert (∀ w0, conversation_state (sess w0) →
                script_run E NoEvent w0 = (Val tt, opened w0)) as Hidle.
  { intros w0 Hcs0. unfold script_run, bind.
    by rewrite script_pass_idle. }
  split; [by apply Hidle|]. split.
  { rewrite Hidle by by apply opened_conversation_state.
    by rewrite opened_idem. }
  split.
  { intros Hall Hm. unfold opened. rewrite Hall, Hm. done. }
  split; [|reflexivity].
  intros [Hall | Hm]; [|by apply opened_nonempty].
  unfold opened. by rewrite Hall.
Qed.

Lemma idle_run_opens_once_witness :
  conversation_state (sess fresh_world) ∧
  script_run sample_env NoEvent fresh_world
  = (Val tt, with_messages [assistant_message name_question] fresh_world).
Proof.
  split; [apply fresh_invariant|].
  apply (idle_run_opens_once sample_env fresh_world). apply fresh_invariant.
Defined.

Lemma get_weather_text E q w w0 :
  (get_weather E q w).1 = (get_weather E q w0).1.
Proof.
  unfold get_weather, try_except, request_weather, bind, perform, lift. cbn.
  repeat step_lift; reflexivity.
Qed.

Lemma get_tasks_text E w w0 : (get_tasks E w).1 = (get_tasks E w0).1.
Proof.
  unfold get_tasks, try_except, request_tasks, bind, perform, lift. cbn.
  destruct (todoist_api E) as [[code body]|e]; cbn; [|reflexivity].
  destruct (code =? 200); cbn; [|reflexivity].
  destruct body as [tasks|e]; cbn.
  - destruct tasks; cbn; try reflexivity. rewrite !collect_tasks_run. cbn [app].
    destruct (map _ _); reflexivity.
  - destruct (is_ValueError e); reflexivity.
Qed.

Lemma opened_prefs w : user_prefs (sess (opened w)) = user_prefs (sess w).
Proof. unfold opened. by destruct (_ && _). Qed.

Lemma opened_calls w : calls (opened w) = calls w.
Proof. unfold opened. by destruct (_ && _). Qed.

Lemma opened_prefix w :
  messages (sess w) `prefix_of` messages (sess (opened w)).
Proof.
  unfold opened.
  destruct (all_None _) eqn:Hall; [|done].
  destruct (bool_decide _) eqn:Hm; [|done].
  apply bool_decide_eq_true_1 in Hm. rewrite Hm. apply prefix_nil.
Qed.

Lemma opened_after_clear w :
  opened (with_messages [] (opened w)) = opened (with_messages [] w).
Proof.
  unfold opened at 2.
  destruct (all_None (user_prefs (sess w))) eqn:Hall; [|done].
  destruct (bool_decide (messages (sess w) = [])); [|done].
  unfold opened. cbn. by rewrite Hall.
Qed.

Lemma chat_block_run (E : env) (w : world) (prompt : string) :
  conversation_state (sess w) →
  truthy prompt = true →
  ∃ text w2,
    generate_response E prompt
      (with_messages (messages (sess w) ++ [user_message prompt]) w)
    = (Val text, w2) ∧
    conversation_state (sess w2) ∧
    chat_block E (ChatInput prompt) w
    = (Val tt,
       with_messages
         (messages (sess w) ++ [user_message prompt; assistant_message text])
         w2).
Proof.
  intros Hcs Hp.
  set (w1 := with_messages (messages (sess w) ++ [user_message prompt]) w).
  destruct (respond_conversation_state E w1 prompt Hcs)
    as (text & w2 & Hrun & Hcs2 & Hm2).
  exists text, w2. split; [done|]. split; [done|].
  unfold chat_block. cbn [chat_input]. rewrite Hp. unfold bind.
  rewrite append_message_run. fold (user_message prompt). fold w1.
  rewrite Hrun, append_message_run, Hm2. subst w1.
  cbn [with_messages sess messages]. by rewrite <- app_assoc.
Qed.

Lemma script_run_after_chat (E : env) (ev : event) (w w3 : world) :
  chat_block E ev w = (Val tt, w3) →
  conversation_state (sess w3) → messages (sess w3) ≠ [] →
  sidebar_block E ev = ret false →
  script_run E ev w = (Val tt, w3).
Proof.
  intros Hchat Hcs3 Hm3 Hside.
  unfold script_run, script_pass, bind. rewrite Hchat.
  rewrite opening_block_run by done.
  by rewrite (opened_nonempty w3 Hm3), Hside.
Qed.

(** X24. A text sent through the chat input is put into the history,
    answered by the router, and the answer is put into the history after
    it: the run never raises from a conversation state and the history
    grows by exactly these two entries.  An empty text is no input at
    all. *)
Theorem chat_turn (E : env) (w : world) (prompt : string) :
  conversation_state (sess w) →
  (truthy prompt = true →
   ∃ text w2,
     generate_response E prompt
       (with_messages (messages (sess w) ++ [user_message prompt]) w)
     = (Val text, w2) ∧
     script_run E (ChatInput prompt) w
     = (Val tt,
        with_messages
          (messages (sess w) ++ [user_message prompt; assistant_message text])
          w2)) ∧
  script_run E (ChatInput EmptyString) w = script_run E NoEvent w.
Proof.
  intros Hcs. split; [|reflexivity]. intros Hp.
  destruct (chat_block_run E w prompt Hcs Hp)
    as (text & w2 & Hrun & Hcs2 & Hchat).
  exists text, w2. split; [done|].
  apply script_run_after_chat; [done | done | | reflexivity].
  cbn. by destruct (messages (sess w)).
Qed.

Lemma chat_turn_witness :
  conversation_state (sess settled_world) ∧
  script_run sample_env (ChatInput "who am i") settled_world
  = (Val tt,
     with_messages
       [user_message "who am i";
        assistant_message "You are Alex, located in Colombo. "]
       settled_world).
Proof.
  split; [exact settled_conversation_state|].
  destruct (proj1 (chat_turn sample_env settled_world "who am i"
                     settled_conversation_state) eq_refl)
    as (text & w2 & Hrun & Hscript).
  vm_compute in Hrun. injection Hrun as <- <-. exact Hscript.
Defined.

Lemma script_run_button (E : env) (ev : event) (w : world)
    (label action text : string) (c : call) :
  conversation_state (sess w) →
  sidebar_block E ev
  = (append_message User label ;;
     answer <- handle_quick_action E action ;;
     append_message Assistant answer ;;
     ret true)%py →
  chat_input ev = None →
  (∀ w0, user_prefs (sess w0) = user_prefs (sess w) →
         handle_quick_action E action w0 = (Val text, logged c w0)) →
  script_run E ev w
  = (Val tt,
     with_messages
       (messages (sess (opened w))
        ++ [user_message label; assistant_message text])
       (logged c (opened w))).
Proof.
  intros Hcs Hside Hchat Hact.
  unfold script_run, script_pass, chat_block. rewrite Hchat, Hside.
  unfold bind at 1. unfold bind at 1. unfold bind at 1. cbn [ret].
  rewrite opening_block_run by done.
  unfold bind at 1. rewrite append_message_run.
  unfold bind at 1. rewrite Hact by (cbn; apply opened_prefs).
  unfold bind at 1. rewrite append_message_run. cbn [ret].
  set (w3 := with_messages _ (logged c _)).
  assert (Hcs3 : conversation_state (sess w3)).
  { subst w3. by apply opened_conversation_state. }
  assert (Hm3 : messages (sess w3) ≠ []).
  { subst w3. cbn. by destruct (messages (sess (opened w))). }
  unfold bind. cbn [ret chat_input]. rewrite opening_block_run by done.
  rewrite (opened_nonempty w3 Hm3). subst w3.
  cbn [with_messages logged sess messages calls sidebar_block ret].
  by rewrite <- app_assoc.
Qed.

Lemma weather_action_run (E : env) (w : world) (v : option string) :
  user_prefs (sess w) !! "location" = Some v →
  ∃ text,
    (get_weather E v w).1 = Val text ∧
    ∀ w0, user_prefs (sess w0) = user_prefs (sess w) →
          handle_quick_action E "weather" w0
          = (Val text, logged (WeatherGet v) w0).
Proof.
  intros Hv. destruct (get_weather_returns E v w) as [text Ht].
  exists text. split; [by rewrite Ht|].
  intros w0 Hp0. unfold handle_quick_action. cbn.
  unfold bind, prefs_get, get_session. cbn. rewrite Hp0, Hv. cbn.
  destruct (get_weather_returns E v w0) as [text0 Ht0]. rewrite Ht0.
  pose proof (get_weather_text E v w0 w) as Heq.
  rewrite Ht0, Ht in Heq. cbn in Heq. by injection Heq as ->.
Qed.

Lemma tasks_action_run (E : env) (w : world) :
  ∃ text,
    (get_tasks E w).1 = Val text ∧
    ∀ w0, handle_quick_action E "tasks" w0 = (Val text, logged TodoistGet w0).
Proof.
  destruct (get_tasks_returns E w) as [text Ht].
  exists text. split; [by rewrite Ht|].
  intros w0. change (handle_quick_action E "tasks" w0) with (get_tasks E w0).
  destruct (get_tasks_returns E w0) as [text0 Ht0]. rewrite Ht0.
  pose proof (get_tasks_text E w0 w) as Heq.
  rewrite Ht0, Ht in Heq. cbn in Heq. by injection Heq as ->.
Qed.

(** X25. The weather button puts "weather" and the answer of the
    weather lookup for the stored location into the history, the tasks
    button "show my tasks" and the answer of the task lookup; each
    contacts its provider exactly once, after the opening question if
    that is still due, and neither changes the preferences. *)
Theorem button_runs (E : env) (w : world) (v : option string) :
  conversation_state (sess w) →
  user_prefs (sess w) !! "location" = Some v →
  (∃ text,
     (get_weather E v w).1 = Val text ∧
     script_run E WeatherButton w
     = (Val tt,
        with_messages
          (messages (sess (opened w))
           ++ [user_message "weather"; assistant_message text])
          (logged (WeatherGet v) (opened w)))) ∧
  (∃ text,
     (get_tasks E w).1 = Val text ∧
     script_run E TasksButton w
     = (Val tt,
        with_messages
          (messages (sess (opened w))
           ++ [user_message "show my tasks"; assistant_message text])
          (logged TodoistGet (opened w)))).
Proof.
  intros Hcs Hv. split.
  - destruct (weather_action_run E w v Hv) as (text & Htext & Hact).
    exists text. split; [done|].
    by apply (script_run_button E WeatherButton w "weather" "weather").
  - destruct (tasks_action_run E w) as (text & Htext & Hact).
    exists text. split; [done|].
    apply (script_run_button E TasksButton w "show my tasks" "tasks");
      [done | reflexivity | reflexivity | by intros w0 _].
Qed.

Lemma button_runs_witness :
  conversation_state (sess settled_world) ∧
  script_run sample_env TasksButton settled_world
  = (Val tt,
     with_messages
       [user_message "show my tasks";
        assistant_message ("Here are your upcoming tasks:" +:+ nl +:+
                           "- Buy milk" +:+ nl +:+ "- Call Bob")]
       (logged TodoistGet settled_world)).
Proof.
  split; [exact settled_conversation_state|].
  destruct (proj2 (button_runs sample_env settled_world (Some "Colombo")
                     settled_conversation_state eq_refl))
    as (text & Htext & Hscript).
  vm_compute in Htext. injection Htext as <-. exact Hscript.
Defined.

Lemma script_run_clear E w :
  conversation_state (sess w) →
  script_run E ClearButton w = (Val tt, opened (with_messages [] w)).
Proof.
  intros Hcs. unfold script_run, script_pass, chat_block.
  cbn [chat_input sidebar_block]. unfold bind at 1. unfold bind at 1.
  unfold bind at 1. cbn [ret]. rewrite opening_block_run by done.
  unfold bind at 1. unfold clear_messages, modify_session. cbn [ret].
  unfold bind. cbn [ret].
  rewrite opening_block_run by by apply opened_conversation_state.
  cbn [ret]. f_equal. apply opened_after_clear.
Qed.

(** X26. The clear button empties the history and changes neither the
    preferences, the cursor nor the log of calls, except that with no
    preference set the rerun asks the opening question again, so that
    the history then holds that question and the cursor points at the
    name; clearing once more gives the same session. *)
Theorem clear_chat (E : env) (w : world) :
  conversation_state (sess w) →
  ∃ w',
    script_run E ClearButton w = (Val tt, w') ∧
    user_prefs (sess w') = user_prefs (sess w) ∧
    calls w' = calls w ∧
    (all_None (user_prefs (sess w)) = false →
     messages (sess w') = [] ∧
     awaiting_preference (sess w') = awaiting_preference (sess w)) ∧
    (all_None (user_prefs (sess w)) = true →
     messages (sess w') = [assistant_message name_question] ∧
     awaiting_preference (sess w') = Some "name") ∧
    script_run E ClearButton w' = (Val tt, w').
Proof.
  intros Hcs.
  exists (opened (with_messages [] w)). split; [by apply script_run_clear|].
  split; [by rewrite opened_prefs|]. split; [by rewrite opened_calls|].
  split; [|split].
  - intros Hall. unfold opened. cbn. by rewrite Hall.
  - intros Hall. unfold opened. cbn. by rewrite Hall.
  - rewrite script_run_clear by by apply opened_conversation_state.
    f_equal. rewrite opened_after_clear. reflexivity.
Qed.

Lemma clear_chat_witness :
  conversation_state (sess fresh_world) ∧
  ∃ w',
    script_run sample_env ClearButton fresh_world = (Val tt, w') ∧
    messages (sess w') = [assistant_message name_question] ∧
    user_prefs (sess w') = user_prefs (sess fresh_world).
Proof.
  split; [apply fresh_invariant|].
  destruct (clear_chat sample_env fresh_world)
    as (w' & Hrun & Hprefs & _ & _ & Hall & _); [apply fresh_invariant|].
  exists w'. split; [exact Hrun|]. split; [|exact Hprefs].
  apply Hall. reflexivity.
Defined.

Lemma reachable_step w w' : reachable w → host_step w w' → reachable w'.
Proof. intros Hr Hs. by eapply rtc_r. Qed.

Lemma with_messages_reachable ms w :
  reachable w → reachable (with_messages ms w).
Proof. intros Hr. eapply reachable_step; [done|]. by eapply step_messages. Qed.

Lemma opened_reachable w : reachable w → reachable (opened w).
Proof.
  intros Hr. destruct (reachable_invariant w Hr) as [(Hn & Hl & _) _].
  unfold opened.
  destruct (all_None (user_prefs (sess w))) eqn:Hall; [|done].
  destruct (bool_decide _); [|done]. cbn [andb].
  apply with_messages_reachable.
  eapply reachable_step; [done|].
  eapply (step_ask _ _ _). rewrite ask_preference_questions_run by done.
  unfold after_ask, next_unset.
  by rewrite (all_None_lookup _ "name" Hall Hn).
Qed.

(** X27. From a state the host can reach, a run of the script never
    raises, whatever the event and whatever the providers do, and ends in
    a reachable state; unless the event is the clear button the old
    history is a prefix of the new one, and unless it is a chat input the
    preferences are as they were. *)
Theorem script_run_safe (E : env) (ev : event) (w : world) :
  reachable w →
  ∃ w',
    script_run E ev w = (Val tt, w') ∧
    reachable w' ∧
    (ev ≠ ClearButton →
     messages (sess w) `prefix_of` messages (sess w')) ∧
    ((∀ prompt, ev ≠ ChatInput prompt) →
     user_prefs (sess w') = user_prefs (sess w)).
Proof.
  intros Hr. destruct (reachable_invariant w Hr) as [Hcs _].
  pose proof Hcs as (_ & [v Hv] & _).
  assert (∃ w', script_run E NoEvent w = (Val tt, w') ∧ reachable w' ∧
                messages (sess w) `prefix_of` messages (sess w') ∧
                user_prefs (sess w') = user_prefs (sess w)) as Hidle.
  { exists (opened w). split.
    - unfold script_run, bind. by rewrite script_pass_idle.
    - split; [by apply opened_reachable|].
      split; [apply opened_prefix | apply opened_prefs]. }
  destruct ev as [|prompt| | |].
  - destruct Hidle as (w' & ? & ? & ? & ?). by exists w'.
  - destruct (truthy prompt) eqn:Hp.
    + destruct (chat_block_run E w prompt Hcs Hp)
        as (text & w2 & Hrun & Hcs2 & Hchat).
      eexists. split.
      { apply script_run_after_chat; [exact Hchat | done | | reflexivity].
        cbn. by destruct (messages (sess w)). }
      split.
      * apply with_messages_reachable. eapply reachable_step.
        { by apply (with_messages_reachable
                      (messages (sess w) ++ [user_message prompt])). }
        by eapply step_respond.
      * split; [intros _; by apply prefix_app_r|].
        intros Hne. by destruct (Hne prompt).
    + destruct prompt; [|done].
      destruct Hidle as (w' & ? & ? & ? & ?). exists w'.
      split; [done|].
      split; [done|]. split; [done|]. intros Hne. by destruct (Hne EmptyString).
  - destruct (weather_action_run E w v Hv) as (text & Htext & Hact).
    eexists. split.
    { by apply (script_run_button E WeatherButton w "weather" "weather"). }
    destruct (get_weather_returns E v
                (with_messages (messages (sess (opened w))
                                ++ [user_message "weather"]) (opened w)))
      as [text0 Ht0].
    split.
    + set (w1 := with_messages (messages (sess (opened w))
                                ++ [user_message "weather"]) (opened w)) in *.
      change (reachable
                (with_messages
                   (messages (sess (opened w))
                    ++ [user_message "weather"; assistant_message text])
                   (logged (WeatherGet v) w1))).
      apply with_messages_reachable.
      eapply (reachable_step w1).
      { by apply with_messages_reachable, opened_reachable. }
      eapply (step_quick_action _ _ E "weather" (Val text0)).
      unfold handle_quick_action. cbn. unfold bind, prefs_get, get_session.
      cbn. fold w1. rewrite opened_prefs, Hv. cbn. exact Ht0.
    + split; [|intros _; cbn; apply opened_prefs].
      intros _. cbn. etrans; [apply opened_prefix|]. by apply prefix_app_r.
  - destruct (tasks_action_run E w) as (text & Htext & Hact).
    eexists. split.
    { apply (script_run_button E TasksButton w "show my tasks" "tasks");
        [done | reflexivity | reflexivity | by intros w0 _]. }
    destruct (get_tasks_returns E
                (with_messages (messages (sess (opened w))
                                ++ [user_message "show my tasks"]) (opened w)))
      as [text0 Ht0].
    split.
    + set (w1 := with_messages (messages (sess (opened w))
                                ++ [user_message "show my tasks"]) (opened w))
        in *.
      change (reachable
                (with_messages
                   (messages (sess (opened w))
                    ++ [user_message "show my tasks"; assistant_message text])
                   (logged TodoistGet w1))).
      apply with_messages_reachable.
      eapply (reachable_step w1).
      { by apply with_messages_reachable, opened_reachable. }
      eapply (step_quick_action _ _ E "tasks" (Val text0)). exact Ht0.
    + split; [|intros _; cbn; apply opened_prefs].
      intros _. cbn. etrans; [apply opened_prefix|]. by apply prefix_app_r.
  - exists (opened (with_messages [] w)).
    split; [by apply script_run_clear|].
    split; [by apply opened_reachable, with_messages_reachable|].
    split; [done|]. intros _. by rewrite opened_prefs.
Qed.

Lemma script_run_safe_witness :
  reachable fresh_world ∧
  ∃ w',
    script_run sample_env (ChatInput "Alex") fresh_world = (Val tt, w') ∧
    reachable w' ∧
    messages (sess fresh_world) `prefix_of` messages (sess w').
Proof.
  split; [apply rtc_refl|].
  destruct (script_run_safe sample_env (ChatInput "Alex") fresh_world)
    as (w' & Hrun & Hr & Hp & _); [apply rtc_refl|].
  exists w'. split; [exact Hrun|]. split; [exact Hr|]. by apply Hp.
Defined.

Lemma host_step_dom w w' :
  conversation_state (sess w) → host_step w w' →
  dom (user_prefs (sess w')) = dom (user_prefs (sess w)).
Proof.
  intros Hcs [E u r Hs|E a r Hs|r Hs|ms ->].
  - destruct (respond_session E w u Hcs)
      as (text & w'' & Hrun & _ & Hprefs & _).
    rewrite Hs in Hrun. injection Hrun as _ <-.
    destruct Hprefs as [-> | (k & v & Hk & ->)]; [done|].
    by apply dom_insert_present.
  - by rewrite (quick_action_session _ _ _ _ _ Hs).
  - destruct Hcs as (Hn & Hl & _).
    rewrite ask_preference_questions_run in Hs by done.
    injection Hs as _ <-. unfold after_ask. by destruct (next_unset _).
  - done.
Qed.

(** X28. In every state the host can reach the preference record has
    exactly the two keys "name" and "location": no key is ever added or
    removed. *)
Theorem reachable_preference_keys (w : world) :
  reachable w → dom (user_prefs (sess w)) = {["name"; "location"]}.
Proof.
  intros Hr.
  eapply (rtc_ind_r (fun w => reachable w ∧
                              dom (user_prefs (sess w)) = {["name"; "location"]})
            fresh_world); [| |exact Hr].
  - split; [apply rtc_refl|]. cbn. by rewrite !dom_insert_L, dom_empty_L,
      (right_id_L ∅ (∪)).
  - intros y z _ Hstep [Hry Hdom]. split; [by eapply reachable_step|].
    destruct (reachable_invariant y Hry) as [Hcs _].
    by rewrite (host_step_dom y z Hcs Hstep).
Qed.

Lemma reachable_preference_keys_witness :
  reachable onboarded_world ∧
  dom (user_prefs (sess onboarded_world)) = {["name"; "location"]}.
Proof.
  split; [exact onboarded_reachable|].
  apply (reachable_preference_keys onboarded_world).
  exact onboarded_reachable.
Defined.
